(** * Lucendex indexer: ingestion pipeline, gap detection and backfill

    A shallow embedding of [backend/cmd/indexer/main.go]: the per-ledger
    function [processLedger], the startup sequence of [main] with its gap
    computation and backfill decision, the background backfill task and the
    primary event loop.  The store ([internal/store]), the ledger source
    ([internal/xrpl]) and the parsers ([internal/parser]) are packages of the
    repository whose code is not part of this development: the parsers and
    the faults of the store and of the upstream node are left as parameters,
    the behaviour of the store's tables and of the live feed is modelled from
    the spec. *)

From Stdlib Require Import ZArith Lia List.
From stdpp Require Import base gmap strings list.
Import ListNotations.
Open Scope Z_scope.

(** ** Machine integers *)

(** Go's [uint64(x)]. *)
Definition to_u64 (z : Z) : Z := z mod 2 ^ 64.

(** Go's [int64(x)] (two's complement wrap). *)
Definition to_i64 (z : Z) : Z :=
  let m := z mod 2 ^ 64 in if 2 ^ 63 <=? m then m - 2 ^ 64 else m.

(** ** Data model *)

(** [xrpl.Transaction] (fields used by the indexer). *)
Record Transaction := mkTransaction {
  Hash : string;
  TransactionType : string;
  Fields : list (string * string)
}.

(** [xrpl.LedgerResponse]. *)
Record LedgerResponse := mkLedger {
  LedgerIndex : Z;
  LedgerHash : string;
  LedgerTime : Z;
  TxnCount : Z;
  Transactions : list Transaction
}.

(** [store.LedgerCheckpoint]. *)
Record LedgerCheckpoint := mkCheckpoint {
  cp_LedgerIndex : Z;
  cp_LedgerHash : string;
  cp_CloseTime : Z;
  cp_TransactionCount : Z;
  cp_ProcessingDurationMs : Z
}.

(** [store.AMMPool]. *)
Record AMMPool := mkPool {
  PoolID : string;
  Asset1 : string;
  Asset2 : string;
  Reserve1 : Z;
  Reserve2 : Z;
  FeeBps : Z;
  LastUpdatedLedger : Z
}.

(** [store.Offer]. *)
Record Offer := mkOffer {
  OfferID : string;
  Owner : string;
  OfferSequence : Z;
  BaseAsset : string;
  QuoteAsset : string;
  Price : string;
  Status : string;
  OfferLedgerIndex : Z
}.

(** A Go [(T, error)] result. *)
Inductive Result (A : Type) :=
| Ok (a : A)
| Err (e : string).
Arguments Ok {A} a.
Arguments Err {A} e.

(** ** Store

    Modelled from the spec: the store's tables (§3, §6 "Store contract"):
    checkpoints keyed by ledger index, pools keyed by pool id, offers keyed
    by offer id; every write is an upsert keyed by the primary key, and
    [CancelOffer account seq ledger] turns the matching active offer to
    [cancelled] and does nothing when there is none. *)
Record Store := mkStore {
  checkpoints : gmap Z LedgerCheckpoint;
  pools : gmap string AMMPool;
  offers : gmap string Offer
}.

(** The store calls made by [processLedger]. *)
Inductive DbOp :=
| OpGetCheckpoint (i : Z)
| OpUpsertAMMPool (p : AMMPool)
| OpUpsertOffer (o : Offer)
| OpCancelOffer (account : string) (seq : Z) (ledger : Z)
| OpSaveCheckpoint (cp : LedgerCheckpoint).

(** Log lines printed by [processLedger] (one constructor per [log.Printf]
    or [logVerbose] call). *)
Inductive LogMsg :=
| LSkipDuplicate (idx : Z)
| LVerifiedSequential (idx prev : Z)
| LProcessing (idx : Z)
| LProcessingTx (h : string)
| LMarshalFailed
| LUnmarshalFailed
| LAMMParserError (h : string)
| LUpsertPoolFailed
| LPoolUpdated (a1 a2 : string)
| LNotAMM
| LOrderbookParserError (h : string)
| LUpsertOfferFailed
| LInvalidOfferStored
| LOfferCreated (base quote price : string)
| LNotOrderbook
| LCancelFailed
| LOfferCancelled (account : string) (seq : Z)
| LCancelParseError
| LIndexed (idx : Z)
| LBackfillRetry (attempt : nat) (i : Z)
| LBackfillStop (i : Z)
| LBackfillProcessError (i : Z)
| LBackfillProgress (count missing : Z)
| LBackfillComplete (count errors : Z)
| LBackfillConnectFailed
| LShutdown
| LClientError (e : string)
| LProcessError (idx : Z).

(** Observable events: store calls, parser calls and log lines. *)
Inductive Event :=
| EvDb (op : DbOp)
| EvParseAMM (h : string)
| EvParseOffer (h : string)
| EvParseCancel (h : string)
| EvLog (m : LogMsg)
| EvFetch (i : Z) (attempt : nat)
| EvSleep (secs : Z).

(** The state [processLedger] threads: the store and the event trace. *)
Record World := mkWorld {
  w_db : Store;
  w_trace : list Event
}.

Definition emit (ev : Event) (w : World) : World :=
  mkWorld (w_db w) (w_trace w ++ [ev]).

Definition set_db (s : Store) (w : World) : World := mkWorld s (w_trace w).

Definition upsert_pool (p : AMMPool) (s : Store) : Store :=
  mkStore (checkpoints s) (<[PoolID p := p]> (pools s)) (offers s).

Definition upsert_offer (o : Offer) (s : Store) : Store :=
  mkStore (checkpoints s) (pools s) (<[OfferID o := o]> (offers s)).

Definition cancel_one (account : string) (seq ledger : Z) (o : Offer) : Offer :=
  if bool_decide (Owner o = account) && (OfferSequence o =? seq)
     && bool_decide (Status o = "active"%string)
  then mkOffer (OfferID o) (Owner o) (OfferSequence o) (BaseAsset o)
         (QuoteAsset o) (Price o) "cancelled" ledger
  else o.

Definition cancel_offer (account : string) (seq ledger : Z) (s : Store) : Store :=
  mkStore (checkpoints s) (pools s) (cancel_one account seq ledger <$> offers s).

Definition save_checkpoint (cp : LedgerCheckpoint) (s : Store) : Store :=
  mkStore (<[cp_LedgerIndex cp := cp]> (checkpoints s)) (pools s) (offers s).

(** ** Gap detection and the backfill decision (lines 124-208 of [main]) *)

(** [const smallGapThreshold = 1000]. *)
Definition smallGapThreshold : Z := 1000.

(** Default of the [-start-ledger] flag. *)
Definition default_startLedger : Z := 99984580.

(** [gap := currentLedger - uint64(checkpoint.LedgerIndex)] in uint64. *)
Definition gap_of (cpIndex currentLedger : Z) : Z :=
  to_u64 (currentLedger - to_u64 cpIndex).

(** [backfillStart := uint64(checkpoint.LedgerIndex + 1)], raised to
    [*startLedger] when below it. *)
Definition backfill_start (cpIndex startLedger : Z) : Z :=
  let backfillStart := to_u64 (to_i64 (cpIndex + 1)) in
  if backfillStart <? startLedger then startLedger else backfillStart.

(** The branches of [main] after subscription. *)
Inductive GapDecision :=
| NoCheckpoint (currentLedger : Z)
| NoGap
| LargeGapSkipped (missingCount : Z)
| BeforeCutoff
| LaunchBackfill (backfillStart currentLedger missingCount : Z).

Definition gap_decision (checkpoint : option LedgerCheckpoint)
    (currentLedger startLedger : Z) : GapDecision :=
  match checkpoint with
  | None => NoCheckpoint currentLedger
  | Some cp =>
    let gap := gap_of (cp_LedgerIndex cp) currentLedger in
    if 1 <? gap then
      let missingCount := to_u64 (gap - 1) in
      let backfillStart := backfill_start (cp_LedgerIndex cp) startLedger in
      if smallGapThreshold <? missingCount then LargeGapSkipped missingCount
      else if currentLedger <=? backfillStart then BeforeCutoff
      else LaunchBackfill backfillStart currentLedger missingCount
    else NoGap
  end.

Definition launches_backfill (d : GapDecision) : bool :=
  match d with LaunchBackfill _ _ _ => true | _ => false end.

(** ** Startup sequence of [main] (lines 60-124) *)

(** What the environment answers at startup. *)
Record StartupEnv := mkEnv {
  env_showVersion : bool;
  env_dbConnStr : string;
  env_newStore : option string;
  env_lastCheckpoint : Result (option LedgerCheckpoint);
  env_connect : option string;
  env_serverInfo : Result Z;
  env_subscribe : option string;
  env_startLedger : Z
}.

(** The calls [main] makes, in order. *)
Inductive StartupStep :=
| SNewStore
| SGetLastCheckpoint
| SConnect
| SGetServerInfo
| SSubscribe
| SGapDecision (d : GapDecision).

Inductive StartupOutcome :=
| Exit0
| Fatal (msg : string)
| Running (d : GapDecision) (currentLedger : Z).

Definition main_startup (env : StartupEnv) : list StartupStep * StartupOutcome :=
  if env_showVersion env then ([], Exit0)
  else if bool_decide (env_dbConnStr env = ""%string) then
    ([], Fatal "DATABASE_URL environment variable or -db flag is required")
  else
  match env_newStore env with
  | Some e => ([SNewStore], Fatal "Failed to connect to database")
  | None =>
  match env_lastCheckpoint env with
  | Err e => ([SNewStore; SGetLastCheckpoint], Fatal "Failed to get last checkpoint")
  | Ok checkpoint =>
  match env_connect env with
  | Some e => ([SNewStore; SGetLastCheckpoint; SConnect],
               Fatal "Failed to connect to rippled")
  | None =>
  match env_serverInfo env with
  | Err e => ([SNewStore; SGetLastCheckpoint; SConnect; SGetServerInfo],
              Fatal "Failed to get server info")
  | Ok currentLedger =>
  match env_subscribe env with
  | Some e => ([SNewStore; SGetLastCheckpoint; SConnect; SGetServerInfo; SSubscribe],
               Fatal "Failed to subscribe to ledger stream")
  | None =>
    let d := gap_decision checkpoint currentLedger (env_startLedger env) in
    ([SNewStore; SGetLastCheckpoint; SConnect; SGetServerInfo; SSubscribe;
      SGapDecision d], Running d currentLedger)
  end end end end end.

(** Modelled from the spec: the ledger source's live feed ([LedgerChan]).
    [Subscribe] registers interest in the ledger-close stream, so the feed
    delivers exactly the ledgers that close after the subscription is
    registered: those above [validatedAtSubscribe], the last ledger closed
    when [Subscribe] ran. *)
Definition live_feed_delivers (validatedAtSubscribe i : Z) : bool :=
  validatedAtSubscribe <? i.

(** Ledgers a launched backfill task walks: [backfillStart <= i < currentLedger]. *)
Definition backfill_covers (d : GapDecision) (i : Z) : bool :=
  match d with
  | LaunchBackfill s c _ => (s <=? i) && (i <? c)
  | _ => false
  end.

(** A ledger after the checkpoint (and not before the cutoff) is indexed
    when the live feed delivers it or the backfill walks it. *)
Definition ledger_reached (env : StartupEnv) (validatedAtSubscribe i : Z) : bool :=
  match main_startup env with
  | (_, Running d _) => live_feed_delivers validatedAtSubscribe i || backfill_covers d i
  | _ => false
  end.

(** Events a transaction of a ledger can cause: no checkpoint call, no
    backfill fetch or sleep. *)
Definition tx_event (e : Event) : bool :=
  match e with
  | EvDb (OpGetCheckpoint _) | EvDb (OpSaveCheckpoint _) => false
  | EvFetch _ _ | EvSleep _ => false
  | _ => true
  end.

Definition is_log (e : Event) : bool :=
  match e with EvLog _ => true | _ => false end.

Definition is_fetch (e : Event) : bool :=
  match e with EvFetch _ _ => true | _ => false end.

(** The calls of the [OfferCancel] branch. *)
Definition is_cancel (e : Event) : bool :=
  match e with EvParseCancel _ | EvDb (OpCancelOffer _ _ _) => true | _ => false end.

(** No checkpoint, pool or offer present in [s] is missing from [s']. *)
Definition store_grows (s s' : Store) : Prop :=
  (forall k, is_Some (checkpoints s !! k) -> is_Some (checkpoints s' !! k)) /\
  (forall k, is_Some (pools s !! k) -> is_Some (pools s' !! k)) /\
  (forall k, is_Some (offers s !! k) -> is_Some (offers s' !! k)).

Definition lookup_or_log (e : Event) : bool :=
  match e with EvDb (OpGetCheckpoint _) | EvLog _ => true | _ => false end.

(** The events of a failed fetch attempt [r] on ledger [i]: the fetch, the
    retry log line and the sleep of [r+1] seconds. *)
Definition failed_attempt (i : Z) (r : nat) : list Event :=
  [EvFetch i r; EvLog (LBackfillRetry (S r) i); EvSleep (Z.of_nat r + 1)].

(** Ledgers whose fetch was started: the indices of first attempts. *)
Definition fetched_indices (t : list Event) : list Z :=
  flat_map (fun e => match e with EvFetch i O => [i] | _ => [] end) t.

(** The indices [a, a+1, ..., b-1]. *)
Definition zrange (a b : Z) : list Z :=
  map (fun k => a + Z.of_nat k) (seq 0 (Z.to_nat (b - a))).

(** ** Concrete inputs *)

(** A startup environment where every call succeeds. *)
Definition env_ok (checkpoint : option LedgerCheckpoint) (cur start : Z)
  : StartupEnv :=
  mkEnv false "postgres://indexer@localhost/lucendex" None (Ok checkpoint) None
    (Ok cur) None start.

Definition checkpoint_at (i : Z) : LedgerCheckpoint :=
  mkCheckpoint i "ledger-hash" 0 0 0.

(** A store and upstream without faults, decoding that succeeds and parsers
    that recognise nothing. *)
Definition no_fault (op : DbOp) : option string := None.

(** A store whose checkpoint lookup for ledger [i] fails. *)
Definition get_fault (i : Z) (op : DbOp) : option string :=
  match op with
  | OpGetCheckpoint j => if j =? i then Some "connection reset by peer" else None
  | _ => None
  end.

Definition marshal_ok (tx : Transaction) : Result string := Ok "{}".
Definition unmarshal_ok (b : string) : Result unit := Ok tt.
Definition parse_amm_none (m : unit) (idx : Z) (h : string) : Result (option AMMPool) :=
  Ok None.
Definition parse_offer_none (m : unit) (idx : Z) (h : string) : Result (option Offer) :=
  Ok None.
Definition parse_cancel_none (m : unit) : Result (string * Z) :=
  Err "not an OfferCancel".
Definition clock_zero (ledger : LedgerResponse) : Z := 0.

Definition sample_tx : Transaction := mkTransaction "tx-1" "Payment" [].

Definition ledger_at (i : Z) : LedgerResponse :=
  mkLedger i "ledger-hash" 0 1 [sample_tx].

Definition empty_store : Store := mkStore ∅ ∅ ∅.
Definition empty_world : World := mkWorld empty_store [].

(** A world whose store already holds the checkpoint of ledger [i]. *)
Definition world_with_checkpoint (i : Z) : World :=
  mkWorld (mkStore {[ i := checkpoint_at i ]} ∅ ∅) [].

(** An upstream node that never answers a fetch. *)
Definition fetch_down (i : Z) (r : nat) : Result LedgerResponse := Err "timeout".

(** An [OfferCancel] transaction, and a [ParseOfferCancel] that rejects it. *)
Definition offer_cancel_tx : Transaction := mkTransaction "tx-2" "OfferCancel" [].
Definition parse_cancel_fail (m : unit) : Result (string * Z) :=
  Err "missing OfferSequence".

(** Ledger [i] holding the [OfferCancel] transaction only. *)
Definition cancel_ledger_at (i : Z) : LedgerResponse :=
  mkLedger i "ledger-hash" 0 1 [offer_cancel_tx].

(** A store whose checkpoint writes fail. *)
Definition save_fault (op : DbOp) : option string :=
  match op with OpSaveCheckpoint _ => Some "disk full" | _ => None end.

(** An upstream node that answers every fetch at the first attempt. *)
Definition fetch_ok (i : Z) (r : nat) : Result LedgerResponse := Ok (ledger_at i).

(** A transaction [json.Marshal] refuses. *)
Definition marshal_fail (tx : Transaction) : Result string :=
  Err "json: unsupported value".

(** The startup race: checkpoint 1000, [GetServerInfo] answering 1006, no
    start-ledger cutoff in the way. *)
Definition env_race : StartupEnv := env_ok (Some (checkpoint_at 1000)) 1006 0.

(** [lia] for the arithmetic of [main], which involves none of the
    section's parameters: they are cleared first. *)
Ltac lia_closed :=
  repeat match goal with
  | f : Z -> nat -> Result LedgerResponse |- _ => clear f
  | f : LedgerResponse -> Z |- _ => clear f
  end; lia.

Section Indexer.

(** Faults of the store: [db_fault op = Some e] when the call [op] fails
    with error [e]. *)
Variable db_fault : DbOp -> option string.
(** The [-v] flag. *)
Variable verbose : bool.
(** [json.Marshal] of a transaction and [json.Unmarshal] into a map. *)
Variable TxMap : Type.
Variable marshal : Transaction -> Result string.
Variable unmarshal : string -> Result TxMap.
(** The parsers of [internal/parser]. *)
Variable parse_amm : TxMap -> Z -> string -> Result (option AMMPool).
Variable parse_offer : TxMap -> Z -> string -> Result (option Offer).
Variable parse_offer_cancel : TxMap -> Result (string * Z).

Definition log (m : LogMsg) (w : World) : World := emit (EvLog m) w.

(** [logVerbose]. *)
Definition log_verbose (m : LogMsg) (w : World) : World :=
  if verbose then log m w else w.

(** [db.GetCheckpoint ctx i]. *)
Definition db_get_checkpoint (w : World) (i : Z)
  : World * Result (option LedgerCheckpoint) :=
  let w := emit (EvDb (OpGetCheckpoint i)) w in
  match db_fault (OpGetCheckpoint i) with
  | Some e => (w, Err e)
  | None => (w, Ok (checkpoints (w_db w) !! i))
  end.

(** A store write: recorded, then applied unless the store fails it. *)
Definition db_write (op : DbOp) (f : Store -> Store) (w : World)
  : World * option string :=
  let w := emit (EvDb op) w in
  match db_fault op with
  | Some e => (w, Some e)
  | None => (set_db (f (w_db w)) w, None)
  end.

(** The body of the [for _, tx := range ledger.Transactions] loop. *)
Definition process_tx (ledger : LedgerResponse) (w : World) (tx : Transaction)
  : World :=
  let w := log_verbose (LProcessingTx (Hash tx)) w in
  match marshal tx with
  | Err _ => log LMarshalFailed w
  | Ok txBytes =>
    match unmarshal txBytes with
    | Err _ => log LUnmarshalFailed w
    | Ok txMap =>
      (* Try AMM parser *)
      let w := emit (EvParseAMM (Hash tx)) w in
      let w :=
        match parse_amm txMap (LedgerIndex ledger) (LedgerHash ledger) with
        | Err _ => log (LAMMParserError (Hash tx)) w
        | Ok (Some pool) =>
          match db_write (OpUpsertAMMPool pool) (upsert_pool pool) w with
          | (w, Some _) => log LUpsertPoolFailed w
          | (w, None) => log (LPoolUpdated (Asset1 pool) (Asset2 pool)) w
          end
        | Ok None => log_verbose LNotAMM w
        end in
      (* Try orderbook parser *)
      let w := emit (EvParseOffer (Hash tx)) w in
      let w :=
        match parse_offer txMap (LedgerIndex ledger) (LedgerHash ledger) with
        | Err _ => log (LOrderbookParserError (Hash tx)) w
        | Ok (Some offer) =>
          match db_write (OpUpsertOffer offer) (upsert_offer offer) w with
          | (w, Some _) => log LUpsertOfferFailed w
          | (w, None) =>
            if bool_decide (Status offer = "invalid_parse"%string)
            then log_verbose LInvalidOfferStored w
            else log (LOfferCreated (BaseAsset offer) (QuoteAsset offer)
                        (Price offer)) w
          end
        | Ok None => log_verbose LNotOrderbook w
        end in
      (* Check for OfferCancel *)
      if bool_decide (TransactionType tx = "OfferCancel"%string) then
        let w := emit (EvParseCancel (Hash tx)) w in
        match parse_offer_cancel txMap with
        | Ok (account, seq) =>
          let l := to_i64 (LedgerIndex ledger) in
          match db_write (OpCancelOffer account seq l)
                  (cancel_offer account seq l) w with
          | (w, Some _) => log LCancelFailed w
          | (w, None) => log (LOfferCancelled account seq) w
          end
        | Err _ => log_verbose LCancelParseError w
        end
      else w
    end
  end.

(** The checkpoint [processLedger] saves; [elapsed] is [time.Since(start)]
    in milliseconds. *)
Definition ledger_checkpoint (ledger : LedgerResponse) (elapsed : Z)
  : LedgerCheckpoint :=
  mkCheckpoint (to_i64 (LedgerIndex ledger)) (LedgerHash ledger)
    (to_i64 (LedgerTime ledger)) (TxnCount ledger) elapsed.

(** The continuity check: lookup of the preceding checkpoint. *)
Definition continuity_check (ledger : LedgerResponse) (w : World) : World :=
  let idx := LedgerIndex ledger in
  if 1 <? idx then
    match db_get_checkpoint w (to_i64 (idx - 1)) with
    | (w, Ok (Some prev)) =>
      log_verbose (LVerifiedSequential idx (cp_LedgerIndex prev)) w
    | (w, _) => w
    end
  else w.

(** [processLedger]: returns the final world and the returned error. *)
Definition processLedger (w : World) (ledger : LedgerResponse) (elapsed : Z)
  : World * option string :=
  let idx := LedgerIndex ledger in
  match db_get_checkpoint w (to_i64 idx) with
  | (w, Ok (Some _)) => (log_verbose (LSkipDuplicate idx) w, None)
  | (w, _) =>
    let w := continuity_check ledger w in
    let w := log (LProcessing idx) w in
    let w := fold_left (process_tx ledger) (Transactions ledger) w in
    match db_write (OpSaveCheckpoint (ledger_checkpoint ledger elapsed))
            (save_checkpoint (ledger_checkpoint ledger elapsed)) w with
    | (w, Some e) => (w, Some e)
    | (w, None) => (log (LIndexed idx) w, None)
    end
  end.

(** ** Backfill task (the goroutine of lines 151-201) *)

(** [backfillClient.Connect()] of the backfill client. *)
Variable backfill_connect : option string.
(** [backfillClient.FetchLedgerSync(i)] at attempt [retry] (0-based). *)
Variable fetch_ledger : Z -> nat -> Result LedgerResponse.
(** Milliseconds [processLedger] spends on a ledger ([time.Since(start)]). *)
Variable clock_ms : LedgerResponse -> Z.

(** The retry loop [for retry := 0; retry < 3; retry++]: [n] attempts left,
    [last] the result of the previous attempt (never returned unless an
    attempt ran, as the loop runs at least once). *)
Fixpoint fetch_loop (n retry : nat) (i : Z) (last : Result LedgerResponse)
    (w : World) : World * Result LedgerResponse :=
  match n with
  | O => (w, last)
  | S n' =>
    let w := emit (EvFetch i retry) w in
    match fetch_ledger i retry with
    | Ok ledger => (w, Ok ledger)
    | Err e =>
      let w := log (LBackfillRetry (S retry) i) w in
      let w := emit (EvSleep (Z.of_nat retry + 1)) w in
      fetch_loop n' (S retry) i (Err e) w
    end
  end.

Definition fetch_with_retry (i : Z) (w : World) : World * Result LedgerResponse :=
  fetch_loop 3 0 i (Err "") w.

(** State of the backfill goroutine: next index, [backfillCount],
    [backfillErrors]. *)
Inductive BfState :=
| BfRunning (i count errors : Z)
| BfDone (count errors : Z)
| BfAborted (i : Z)
| BfConnectFailed.

(** Start of the goroutine. *)
Definition bf_init (backfillStart : Z) (w : World) : World * BfState :=
  match backfill_connect with
  | Some _ => (log LBackfillConnectFailed w, BfConnectFailed)
  | None => (w, BfRunning backfillStart 0 0)
  end.

(** One iteration of [for i := backfillStart; i < currentLedger; i++];
    [None] once the goroutine has returned. *)
Definition bf_step (currentLedger missingCount : Z) (w : World) (s : BfState)
  : option (World * BfState) :=
  match s with
  | BfRunning i count errors =>
    if i <? currentLedger then
      match fetch_with_retry i w with
      | (w, Err _) => Some (log (LBackfillStop i) w, BfAborted i)
      | (w, Ok ledger) =>
        let '(w, count, errors) :=
          match processLedger w ledger (clock_ms ledger) with
          | (w, Some _) => (log (LBackfillProcessError i) w, count, errors + 1)
          | (w, None) => (w, count + 1, errors)
          end in
        let w := if count mod 100 =? 0
                 then log (LBackfillProgress count missingCount) w else w in
        Some (w, BfRunning (i + 1) count errors)
      end
    else Some (log (LBackfillComplete count errors) w, BfDone count errors)
  | _ => None
  end.

(** [n] steps of the backfill goroutine run alone. *)
Fixpoint bf_run (n : nat) (currentLedger missingCount : Z) (w : World)
    (s : BfState) : World * BfState :=
  match n with
  | O => (w, s)
  | S n' =>
    match bf_step currentLedger missingCount w s with
    | Some (w', s') => bf_run n' currentLedger missingCount w' s'
    | None => (w, s)
    end
  end.

(** ** The primary loop (lines 217-231) *)

Inductive LiveEvent :=
| SigTerm
| ClientError (e : string)
| LedgerClosed (ledger : LedgerResponse).

(** One turn of the [select]; the boolean is [false] once [main] returns. *)
Definition live_step (w : World) (ev : LiveEvent) : World * bool :=
  match ev with
  | SigTerm => (log LShutdown w, false)
  | ClientError e => (log (LClientError e) w, true)
  | LedgerClosed ledger =>
    match processLedger w ledger (clock_ms ledger) with
    | (w, Some _) => (log (LProcessError (LedgerIndex ledger)) w, true)
    | (w, None) => (w, true)
    end
  end.

(** The process after startup: the shared store and trace, the backfill
    goroutine and whether the primary loop still runs. *)
Record Sys := mkSys {
  sys_world : World;
  sys_bf : BfState;
  sys_live : bool
}.

(** Interleaving of the two goroutines. *)
Inductive sys_step (currentLedger missingCount : Z) : Sys -> Sys -> Prop :=
| step_backfill s w' b' :
    bf_step currentLedger missingCount (sys_world s) (sys_bf s) = Some (w', b') ->
    sys_step currentLedger missingCount s (mkSys w' b' (sys_live s))
| step_live s ev w' k :
    sys_live s = true ->
    live_step (sys_world s) ev = (w', k) ->
    sys_step currentLedger missingCount s (mkSys w' (sys_bf s) k).


(** The calls a transaction gives rise to once it is decoded: both parsers
    run, and every record they return is upserted. *)
Definition tx_attempted (ledger : LedgerResponse) (tx : Transaction)
    (ext : list Event) : Prop :=
  match marshal tx with
  | Ok b =>
    match unmarshal b with
    | Ok m =>
      In (EvParseAMM (Hash tx)) ext /\ In (EvParseOffer (Hash tx)) ext /\
      match parse_amm m (LedgerIndex ledger) (LedgerHash ledger) with
      | Ok (Some p) => In (EvDb (OpUpsertAMMPool p)) ext
      | _ => True
      end /\
      match parse_offer m (LedgerIndex ledger) (LedgerHash ledger) with
      | Ok (Some o) => In (EvDb (OpUpsertOffer o)) ext
      | _ => True
      end
    | Err _ => True
    end
  | Err _ => True
  end.

(** ** Arithmetic of the gap computation *)

Lemma to_u64_range (z : Z) : 0 <= to_u64 z < 2 ^ 64.
Proof using. unfold to_u64. apply Z.mod_pos_bound. lia_closed. Qed.

Lemma to_u64_small (z : Z) : 0 <= z < 2 ^ 64 -> to_u64 z = z.
Proof using. intros H. unfold to_u64. apply Z.mod_small. exact H. Qed.

Lemma to_u64_to_i64 (z : Z) : to_u64 (to_i64 z) = z mod 2 ^ 64.
Proof using.
  unfold to_u64, to_i64.
  pose proof (Z.mod_pos_bound z (2 ^ 64)) as Hb.
  destruct (2 ^ 63 <=? z mod 2 ^ 64).
  - rewrite Zminus_mod, Z_mod_same_full, Z.sub_0_r, !Zmod_mod. reflexivity.
  - apply Zmod_mod.
Qed.

Lemma gap_of_range (cpIndex cur : Z) : 0 <= gap_of cpIndex cur < 2 ^ 64.
Proof using. apply to_u64_range. Qed.

(** For a non-negative int64 checkpoint index the uint64 conversions are
    exact and [backfillStart] is [max(checkpoint+1, startLedger)]. *)
Lemma backfill_start_max (cpIndex startLedger : Z) :
  0 <= cpIndex < 2 ^ 63 ->
  backfill_start cpIndex startLedger = Z.max (cpIndex + 1) startLedger.
Proof using.
  intros H. unfold backfill_start.
  rewrite to_u64_to_i64, Z.mod_small by lia_closed.
  destruct (Z.ltb_spec (cpIndex + 1) startLedger); lia_closed.
Qed.

Lemma gap_decision_launch (cp : LedgerCheckpoint) (cur start bs c m : Z) :
  gap_decision (Some cp) cur start = LaunchBackfill bs c m ->
  1 < gap_of (cp_LedgerIndex cp) cur /\
  m = gap_of (cp_LedgerIndex cp) cur - 1 /\ m <= smallGapThreshold /\
  bs = backfill_start (cp_LedgerIndex cp) start /\ bs < cur /\ c = cur.
Proof using.
  pose proof (gap_of_range (cp_LedgerIndex cp) cur) as Hr.
  unfold gap_decision.
  destruct (Z.ltb_spec 1 (gap_of (cp_LedgerIndex cp) cur)); [|discriminate].
  rewrite (to_u64_small (gap_of _ _ - 1)) by lia_closed.
  destruct (Z.ltb_spec smallGapThreshold (gap_of (cp_LedgerIndex cp) cur - 1));
    [discriminate|].
  destruct (Z.leb_spec cur (backfill_start (cp_LedgerIndex cp) start));
    [discriminate|].
  intros Heq. injection Heq as <- <- <-. repeat split; lia_closed.
Qed.

Lemma main_startup_running (env : StartupEnv) (steps : list StartupStep)
    (d : GapDecision) (cur : Z) :
  main_startup env = (steps, Running d cur) ->
  exists checkpoint,
    env_lastCheckpoint env = Ok checkpoint /\ env_serverInfo env = Ok cur /\
    env_subscribe env = None /\
    d = gap_decision checkpoint cur (env_startLedger env) /\
    steps = [SNewStore; SGetLastCheckpoint; SConnect; SGetServerInfo; SSubscribe;
             SGapDecision d].
Proof using.
  unfold main_startup.
  destruct (env_showVersion env); [discriminate|].
  destruct (bool_decide _); [discriminate|].
  destruct (env_newStore env); [discriminate|].
  destruct (env_lastCheckpoint env) as [checkpoint|]; [|discriminate].
  destruct (env_connect env); [discriminate|].
  destruct (env_serverInfo env) as [c|]; [|discriminate].
  destruct (env_subscribe env); [discriminate|].
  intros Heq. injection Heq as <- <- <-. eexists. repeat split.
Qed.

(** [Subscribe] precedes the gap decision, and its failure is fatal. *)
Lemma subscribe_before_gap_decision (env : StartupEnv) :
  (forall steps d cur, main_startup env = (steps, Running d cur) ->
     exists pre, steps = pre ++ [SSubscribe; SGapDecision d] /\
                 ~ (exists d', SGapDecision d' ∈ pre)) /\
  (forall e, env_subscribe env = Some e ->
     forall steps d cur, main_startup env <> (steps, Running d cur)).
Proof using.
  split.
  - intros steps d cur H.
    destruct (main_startup_running env steps d cur H)
      as (checkpoint & _ & _ & _ & _ & ->).
    exists [SNewStore; SGetLastCheckpoint; SConnect; SGetServerInfo].
    split; [reflexivity|]. intros [d' Hin]. clear -Hin. set_solver.
  - intros e He steps d cur H.
    destruct (main_startup_running env steps d cur H) as (? & _ & _ & Hs & _).
    congruence.
Qed.

(** ** Claims on the startup decision *)

(** C3: when the missing count [gap - 1] exceeds [smallGapThreshold]
    (1000), no backfill task is launched and [main] enters the live loop
    with the current validated ledger. *)
Theorem large_gap_skips_backfill (env : StartupEnv) (steps : list StartupStep)
    (d : GapDecision) (cur : Z) (cp : LedgerCheckpoint) :
  main_startup env = (steps, Running d cur) ->
  env_lastCheckpoint env = Ok (Some cp) ->
  smallGapThreshold < gap_of (cp_LedgerIndex cp) cur - 1 ->
  env_serverInfo env = Ok cur /\
  d = LargeGapSkipped (gap_of (cp_LedgerIndex cp) cur - 1) /\
  launches_backfill d = false.
Proof using.
  intros Hrun Hcp Hgap.
  destruct (main_startup_running env steps d cur Hrun)
    as (checkpoint & Hcp' & Hcur & _ & -> & _).
  rewrite Hcp in Hcp'. injection Hcp' as <-.
  pose proof (gap_of_range (cp_LedgerIndex cp) cur).
  unfold gap_decision. unfold smallGapThreshold in *.
  destruct (Z.ltb_spec 1 (gap_of (cp_LedgerIndex cp) cur)); [|lia_closed].
  rewrite (to_u64_small (gap_of _ _ - 1)) by lia_closed.
  destruct (Z.ltb_spec 1000 (gap_of (cp_LedgerIndex cp) cur - 1));
    [|lia_closed].
  auto.
Qed.

Lemma large_gap_skips_backfill_witness :
  (main_startup (env_ok (Some (checkpoint_at 1000)) 5000 0) =
     ([SNewStore; SGetLastCheckpoint; SConnect; SGetServerInfo; SSubscribe;
       SGapDecision (LargeGapSkipped 3999)], Running (LargeGapSkipped 3999) 5000) /\
   smallGapThreshold < gap_of 1000 5000 - 1) /\
  (env_serverInfo (env_ok (Some (checkpoint_at 1000)) 5000 0) = Ok 5000 /\
   LargeGapSkipped 3999 = LargeGapSkipped (gap_of 1000 5000 - 1) /\
   launches_backfill (LargeGapSkipped 3999) = false).
Proof using.
  split; [split; vm_compute; reflexivity|].
  apply (large_gap_skips_backfill (env_ok (Some (checkpoint_at 1000)) 5000 0)
           [SNewStore; SGetLastCheckpoint; SConnect; SGetServerInfo; SSubscribe;
            SGapDecision (LargeGapSkipped 3999)] (LargeGapSkipped 3999) 5000
           (checkpoint_at 1000)); vm_compute; reflexivity.
Defined.

(** C4: [backfillStart = max(checkpoint+1, startLedger)] (for a
    non-negative int64 checkpoint index), a launched backfill starts there,
    and when [backfillStart >= currentValidatedLedger] no backfill is
    launched. *)
Theorem backfill_start_respects_cutoff (cp : LedgerCheckpoint) (cur start : Z) :
  0 <= cp_LedgerIndex cp < 2 ^ 63 ->
  backfill_start (cp_LedgerIndex cp) start = Z.max (cp_LedgerIndex cp + 1) start /\
  (forall bs c m, gap_decision (Some cp) cur start = LaunchBackfill bs c m ->
     bs = Z.max (cp_LedgerIndex cp + 1) start) /\
  (cur <= backfill_start (cp_LedgerIndex cp) start ->
     launches_backfill (gap_decision (Some cp) cur start) = false).
Proof using.
  intros Hcp. rewrite <- backfill_start_max by exact Hcp.
  split; [reflexivity|]. split.
  - intros bs c m H. apply gap_decision_launch in H.
    destruct H as (_ & _ & _ & Hbs & _). exact Hbs.
  - intros Hle.
    destruct (gap_decision (Some cp) cur start) as [| | | |bs c m] eqn:Hd;
      try reflexivity.
    apply gap_decision_launch in Hd. lia_closed.
Qed.

Lemma backfill_start_respects_cutoff_witness :
  0 <= 50 < 2 ^ 63 /\
  backfill_start 50 100000 = Z.max (50 + 1) 100000 /\
  (forall bs c m, gap_decision (Some (checkpoint_at 50)) 200000 100000 =
                  LaunchBackfill bs c m -> bs = Z.max (50 + 1) 100000) /\
  (200000 <= backfill_start 50 100000 ->
     launches_backfill (gap_decision (Some (checkpoint_at 50)) 200000 100000) = false).
Proof using.
  split; [lia_closed|].
  apply (backfill_start_respects_cutoff (checkpoint_at 50) 200000 100000).
  simpl. lia_closed.
Defined.

(** C10: the large-gap skip is decided on the raw missing count, before the
    cutoff: with [gap - 1 > 1000] no backfill is launched even when the
    clamped range [backfillStart, currentValidatedLedger) has at most 1000
    ledgers. *)
Theorem large_gap_decided_before_cutoff (cp : LedgerCheckpoint) (cur start : Z) :
  smallGapThreshold < gap_of (cp_LedgerIndex cp) cur - 1 ->
  cur - backfill_start (cp_LedgerIndex cp) start <= smallGapThreshold ->
  gap_decision (Some cp) cur start =
    LargeGapSkipped (gap_of (cp_LedgerIndex cp) cur - 1).
Proof using.
  intros Hgap _.
  pose proof (gap_of_range (cp_LedgerIndex cp) cur).
  unfold gap_decision. unfold smallGapThreshold in *.
  destruct (Z.ltb_spec 1 (gap_of (cp_LedgerIndex cp) cur)); [|lia_closed].
  rewrite (to_u64_small (gap_of _ _ - 1)) by lia_closed.
  destruct (Z.ltb_spec 1000 (gap_of (cp_LedgerIndex cp) cur - 1));
    [reflexivity|lia_closed].
Qed.

Lemma large_gap_decided_before_cutoff_witness :
  (smallGapThreshold < gap_of 50 100500 - 1 /\
   100500 - backfill_start 50 100000 <= smallGapThreshold) /\
  gap_decision (Some (checkpoint_at 50)) 100500 100000 =
    LargeGapSkipped (gap_of 50 100500 - 1).
Proof using.
  split; [split; vm_compute; congruence|].
  apply (large_gap_decided_before_cutoff (checkpoint_at 50) 100500 100000);
    vm_compute; congruence.
Defined.

(** ** Traces of [processLedger] *)

Lemma process_tx_trace (ledger : LedgerResponse) (w : World) (tx : Transaction) :
  exists ext : list Event,
    w_trace (process_tx ledger w tx) = w_trace w ++ ext /\
    Forall (fun e => tx_event e = true) ext /\
    tx_attempted ledger tx ext.
Proof using db_fault verbose TxMap marshal unmarshal parse_amm parse_offer parse_offer_cancel.
  unfold tx_attempted, process_tx, db_write, log_verbose, log.
  repeat case_match; simplify_eq; cbn [w_trace w_db emit set_db];
    (eexists; split; [rewrite <- ?app_assoc; reflexivity|]).
  all: cbn [app]; repeat split;
    first [ solve [repeat constructor] | simpl; auto 20 ].
Qed.

Lemma tx_attempted_mono (ledger : LedgerResponse) (tx : Transaction)
    (ext ext' : list Event) :
  tx_attempted ledger tx ext -> (forall e, In e ext -> In e ext') ->
  tx_attempted ledger tx ext'.
Proof using db_fault verbose TxMap marshal unmarshal parse_amm parse_offer parse_offer_cancel.
  clear backfill_connect fetch_ledger clock_ms.
  unfold tx_attempted. intros H Hsub. repeat case_match; naive_solver.
Qed.

Lemma fold_process_tx_trace (ledger : LedgerResponse) (txs : list Transaction)
    (w : World) :
  exists ext : list Event,
    w_trace (fold_left (process_tx ledger) txs w) = w_trace w ++ ext /\
    Forall (fun e => tx_event e = true) ext /\
    (forall tx, In tx txs -> tx_attempted ledger tx ext).
Proof using db_fault verbose TxMap marshal unmarshal parse_amm parse_offer parse_offer_cancel.
  revert w. induction txs as [|tx txs IH]; intros w; simpl.
  - exists []. rewrite app_nil_r. split; [reflexivity|]. split; [constructor|].
    intros tx [].
  - destruct (process_tx_trace ledger w tx) as (e1 & Ht1 & Hf1 & Ha1).
    destruct (IH (process_tx ledger w tx)) as (e2 & Ht2 & Hf2 & Ha2).
    exists (e1 ++ e2). rewrite Ht2, Ht1, app_assoc. split; [reflexivity|].
    split; [apply Forall_app; auto|].
    intros tx' [<-|Hin].
    + eapply tx_attempted_mono; [exact Ha1|]. intros e He. apply in_or_app; auto.
    + eapply tx_attempted_mono; [exact (Ha2 tx' Hin)|].
      intros e He. apply in_or_app; auto.
Qed.

Lemma db_get_checkpoint_world (w : World) (i : Z) :
  fst (db_get_checkpoint w i) = emit (EvDb (OpGetCheckpoint i)) w.
Proof using db_fault verbose TxMap marshal unmarshal parse_amm parse_offer parse_offer_cancel.
  unfold db_get_checkpoint. destruct (db_fault _); reflexivity.
Qed.

Lemma continuity_check_trace (ledger : LedgerResponse) (w : World) :
  w_db (continuity_check ledger w) = w_db w /\
  exists cont, w_trace (continuity_check ledger w) = w_trace w ++ cont /\
               Forall (fun e => lookup_or_log e = true) cont.
Proof using db_fault verbose TxMap marshal unmarshal parse_amm parse_offer parse_offer_cancel.
  unfold continuity_check, db_get_checkpoint, log_verbose, log.
  repeat case_match; simplify_eq; cbn [w_trace w_db emit];
    (split; [reflexivity|]);
    (eexists; split;
       [first [rewrite <- ?app_assoc; reflexivity | symmetry; apply app_nil_r]|]);
    repeat constructor.
Qed.

(** What [processLedger] does once the duplicate guard lets a ledger
    through: the continuity lookup, every transaction in order, then the
    checkpoint write, whose result it returns. *)
Lemma processLedger_proceeds (w : World) (ledger : LedgerResponse) (elapsed : Z) :
  (forall c, snd (db_get_checkpoint w (to_i64 (LedgerIndex ledger))) <> Ok (Some c)) ->
  exists cont mid post,
    w_trace (continuity_check ledger
               (emit (EvDb (OpGetCheckpoint (to_i64 (LedgerIndex ledger)))) w)) =
      w_trace w ++ [EvDb (OpGetCheckpoint (to_i64 (LedgerIndex ledger)))] ++ cont /\
    w_trace (fst (processLedger w ledger elapsed)) =
      w_trace w ++ [EvDb (OpGetCheckpoint (to_i64 (LedgerIndex ledger)))] ++ cont ++
      [EvLog (LProcessing (LedgerIndex ledger))] ++ mid ++
      [EvDb (OpSaveCheckpoint (ledger_checkpoint ledger elapsed))] ++ post /\
    Forall (fun e => tx_event e = true) mid /\
    (forall tx, In tx (Transactions ledger) -> tx_attempted ledger tx mid) /\
    Forall (fun e => is_log e = true) post /\
    snd (processLedger w ledger elapsed) =
      db_fault (OpSaveCheckpoint (ledger_checkpoint ledger elapsed)).
Proof using db_fault verbose TxMap marshal unmarshal parse_amm parse_offer parse_offer_cancel.
  intros Hguard. unfold processLedger.
  pose proof (db_get_checkpoint_world w (to_i64 (LedgerIndex ledger))) as Hw.
  destruct (db_get_checkpoint w (to_i64 (LedgerIndex ledger))) as [w1 r] eqn:Hg.
  simpl in Hw, Hguard. subst w1.
  destruct (continuity_check_trace ledger
              (emit (EvDb (OpGetCheckpoint (to_i64 (LedgerIndex ledger)))) w))
    as (_ & cont & Hc & _).
  destruct (fold_process_tx_trace ledger (Transactions ledger)
              (log (LProcessing (LedgerIndex ledger))
                 (continuity_check ledger
                    (emit (EvDb (OpGetCheckpoint (to_i64 (LedgerIndex ledger)))) w))))
    as (mid & Hm & Hmf & Hma).
  assert (Hcase : forall res : World * option string,
    res = db_write (OpSaveCheckpoint (ledger_checkpoint ledger elapsed))
            (save_checkpoint (ledger_checkpoint ledger elapsed))
            (fold_left (process_tx ledger) (Transactions ledger)
               (log (LProcessing (LedgerIndex ledger))
                  (continuity_check ledger
                     (emit (EvDb (OpGetCheckpoint (to_i64 (LedgerIndex ledger)))) w)))) ->
    exists post,
      w_trace (fst (match res with
                    | (w, Some e) => (w, Some e)
                    | (w, None) => (log (LIndexed (LedgerIndex ledger)) w, None)
                    end)) =
        w_trace w ++ [EvDb (OpGetCheckpoint (to_i64 (LedgerIndex ledger)))] ++ cont ++
        [EvLog (LProcessing (LedgerIndex ledger))] ++ mid ++
        [EvDb (OpSaveCheckpoint (ledger_checkpoint ledger elapsed))] ++ post /\
      Forall (fun e => is_log e = true) post /\
      snd (match res with
           | (w, Some e) => (w, Some e)
           | (w, None) => (log (LIndexed (LedgerIndex ledger)) w, None)
           end) = db_fault (OpSaveCheckpoint (ledger_checkpoint ledger elapsed))).
  { intros res ->. unfold db_write. unfold log in Hm |- *.
    cbn [w_trace emit] in Hc, Hm. rewrite Hc in Hm.
    destruct (db_fault (OpSaveCheckpoint (ledger_checkpoint ledger elapsed))) eqn:Hf;
      cbn [w_trace w_db emit set_db fst snd]; rewrite Hm;
      repeat rewrite <- app_assoc; simpl.
    - exists []. split; [rewrite ?app_nil_r; reflexivity|]. auto.
    - exists [EvLog (LIndexed (LedgerIndex ledger))].
      split; [reflexivity|]. split; [repeat constructor|reflexivity]. }
  destruct r as [[c|]|e].
  - exfalso. exact (Hguard c eq_refl).
  - cbv beta iota zeta. destruct (Hcase _ eq_refl) as (post & Ht & Hp & Hr).
    exists cont, mid, post. split; [rewrite Hc; cbn [w_trace emit];
                                    rewrite <- app_assoc; reflexivity|].
    repeat split; auto.
  - cbv beta iota zeta. destruct (Hcase _ eq_refl) as (post & Ht & Hp & Hr).
    exists cont, mid, post. split; [rewrite Hc; cbn [w_trace emit];
                                    rewrite <- app_assoc; reflexivity|].
    repeat split; auto.
Qed.

Lemma processLedger_skip (w : World) (ledger : LedgerResponse) (elapsed : Z)
    (c : LedgerCheckpoint) :
  snd (db_get_checkpoint w (to_i64 (LedgerIndex ledger))) = Ok (Some c) ->
  processLedger w ledger elapsed =
    (log_verbose (LSkipDuplicate (LedgerIndex ledger))
       (emit (EvDb (OpGetCheckpoint (to_i64 (LedgerIndex ledger)))) w), None).
Proof using db_fault verbose TxMap marshal unmarshal parse_amm parse_offer parse_offer_cancel.
  intros Hs. unfold processLedger.
  pose proof (db_get_checkpoint_world w (to_i64 (LedgerIndex ledger))) as Hw.
  destruct (db_get_checkpoint w (to_i64 (LedgerIndex ledger))) as [w1 r].
  simpl in Hw, Hs. subst. reflexivity.
Qed.

Lemma log_verbose_db (m : LogMsg) (w : World) : w_db (log_verbose m w) = w_db w.
Proof using db_fault verbose TxMap marshal unmarshal parse_amm parse_offer parse_offer_cancel.
  unfold log_verbose. destruct verbose; reflexivity.
Qed.

(** A ledger let through whose checkpoint write succeeds ends checkpointed. *)
Lemma processLedger_saves (w : World) (ledger : LedgerResponse) (elapsed : Z) :
  (forall c, snd (db_get_checkpoint w (to_i64 (LedgerIndex ledger))) <> Ok (Some c)) ->
  db_fault (OpSaveCheckpoint (ledger_checkpoint ledger elapsed)) = None ->
  checkpoints (w_db (fst (processLedger w ledger elapsed))) !!
    to_i64 (LedgerIndex ledger) = Some (ledger_checkpoint ledger elapsed).
Proof using db_fault verbose TxMap marshal unmarshal parse_amm parse_offer parse_offer_cancel.
  intros Hguard Hf. unfold processLedger.
  pose proof (db_get_checkpoint_world w (to_i64 (LedgerIndex ledger))) as Hw.
  destruct (db_get_checkpoint w (to_i64 (LedgerIndex ledger))) as [w1 r].
  simpl in Hw, Hguard. subst w1.
  assert (Hsave : forall w2,
    checkpoints (w_db (fst (match db_write (OpSaveCheckpoint (ledger_checkpoint ledger elapsed))
                (save_checkpoint (ledger_checkpoint ledger elapsed)) w2 with
              | (w, Some e) => (w, Some e)
              | (w, None) => (log (LIndexed (LedgerIndex ledger)) w, None)
              end))) !! to_i64 (LedgerIndex ledger) = Some (ledger_checkpoint ledger elapsed)).
  { intros w2. unfold db_write. rewrite Hf. cbn [fst log emit set_db w_db].
    unfold save_checkpoint. cbn [checkpoints].
    apply lookup_insert_eq. }
  destruct r as [[c|]|e]; [exfalso; exact (Hguard c eq_refl)| |];
    cbv beta iota zeta; apply Hsave.
Qed.

Lemma continuity_check_events (w : World) (ledger : LedgerResponse) :
  1 < LedgerIndex ledger ->
  w_trace (continuity_check ledger w) =
    w_trace w ++ EvDb (OpGetCheckpoint (to_i64 (LedgerIndex ledger - 1))) ::
      match db_fault (OpGetCheckpoint (to_i64 (LedgerIndex ledger - 1))),
            checkpoints (w_db w) !! to_i64 (LedgerIndex ledger - 1) with
      | None, Some p =>
        if verbose then [EvLog (LVerifiedSequential (LedgerIndex ledger) (cp_LedgerIndex p))]
        else []
      | _, _ => []
      end.
Proof using db_fault verbose TxMap marshal unmarshal parse_amm parse_offer parse_offer_cancel.
  intros Hidx. unfold continuity_check.
  destruct (Z.ltb_spec 1 (LedgerIndex ledger)); [|lia].
  unfold db_get_checkpoint, log_verbose, log.
  destruct (db_fault _); cbn [w_trace w_db emit]; [reflexivity|].
  destruct (checkpoints (w_db w) !! _); [|reflexivity].
  destruct verbose; cbn [w_trace emit]; rewrite <- ?app_assoc; reflexivity.
Qed.

(** ** Claims on [processLedger] *)

(** C1: a ledger whose index is already checkpointed (and whose lookup
    succeeds) is skipped: [processLedger] only looks the checkpoint up (and
    logs in verbose mode), parses nothing, writes nothing and returns nil;
    hence processing a ledger a second time after a successful first run
    leaves the store as the first run left it. *)
Theorem processLedger_duplicate_noop (w : World) (ledger : LedgerResponse)
    (elapsed elapsed' : Z) :
  db_fault (OpGetCheckpoint (to_i64 (LedgerIndex ledger))) = None ->
  (forall c, checkpoints (w_db w) !! to_i64 (LedgerIndex ledger) = Some c ->
     processLedger w ledger elapsed =
       (log_verbose (LSkipDuplicate (LedgerIndex ledger))
          (emit (EvDb (OpGetCheckpoint (to_i64 (LedgerIndex ledger)))) w), None) /\
     w_db (fst (processLedger w ledger elapsed)) = w_db w) /\
  (forall w1, processLedger w ledger elapsed = (w1, None) ->
     processLedger w1 ledger elapsed' =
       (log_verbose (LSkipDuplicate (LedgerIndex ledger))
          (emit (EvDb (OpGetCheckpoint (to_i64 (LedgerIndex ledger)))) w1), None) /\
     w_db (fst (processLedger w1 ledger elapsed')) = w_db w1).
Proof using db_fault verbose TxMap marshal unmarshal parse_amm parse_offer parse_offer_cancel.
  intros Hf.
  assert (Hnoop : forall w0 c,
    checkpoints (w_db w0) !! to_i64 (LedgerIndex ledger) = Some c ->
    processLedger w0 ledger elapsed' =
      (log_verbose (LSkipDuplicate (LedgerIndex ledger))
         (emit (EvDb (OpGetCheckpoint (to_i64 (LedgerIndex ledger)))) w0), None) /\
    w_db (fst (processLedger w0 ledger elapsed')) = w_db w0).
  { intros w0 c Hc.
    assert (Hs : snd (db_get_checkpoint w0 (to_i64 (LedgerIndex ledger))) = Ok (Some c)).
    { unfold db_get_checkpoint. rewrite Hf. cbn [snd w_db emit]. rewrite Hc. reflexivity. }
    rewrite (processLedger_skip w0 ledger elapsed' c Hs).
    split; [reflexivity|]. cbn [fst]. rewrite log_verbose_db. reflexivity. }
  split.
  - intros c Hc.
    assert (Hs : snd (db_get_checkpoint w (to_i64 (LedgerIndex ledger))) = Ok (Some c)).
    { unfold db_get_checkpoint. rewrite Hf. cbn [snd w_db emit]. rewrite Hc. reflexivity. }
    rewrite (processLedger_skip w ledger elapsed c Hs).
    split; [reflexivity|]. cbn [fst]. rewrite log_verbose_db. reflexivity.
  - intros w1 H1.
    destruct (checkpoints (w_db w) !! to_i64 (LedgerIndex ledger)) as [c|] eqn:Hc.
    + assert (Hs : snd (db_get_checkpoint w (to_i64 (LedgerIndex ledger))) = Ok (Some c)).
      { unfold db_get_checkpoint. rewrite Hf. cbn [snd w_db emit]. rewrite Hc. reflexivity. }
      rewrite (processLedger_skip w ledger elapsed c Hs) in H1.
      injection H1 as <-.
      apply (Hnoop _ c). rewrite log_verbose_db. exact Hc.
    + assert (Hguard : forall c, snd (db_get_checkpoint w (to_i64 (LedgerIndex ledger)))
                                 <> Ok (Some c)).
      { intros c. unfold db_get_checkpoint. rewrite Hf. cbn [snd w_db emit]. rewrite Hc.
        discriminate. }
      destruct (processLedger_proceeds w ledger elapsed Hguard)
        as (_ & _ & _ & _ & _ & _ & _ & _ & Hr).
      rewrite H1 in Hr. simpl in Hr.
      pose proof (processLedger_saves w ledger elapsed Hguard (eq_sym Hr)) as Hsv.
      rewrite H1 in Hsv. simpl in Hsv.
      exact (Hnoop w1 _ Hsv).
Qed.

(** Per-transaction parser and store errors never abort the ledger:
    once the duplicate guard lets the ledger through, every decoded
    transaction has both parsers run and every parsed record upserted, the
    checkpoint write comes after all of them (only log lines follow it), and
    [processLedger] returns exactly the checkpoint write's error; it returns
    an error only when that write fails. *)
Theorem processLedger_tx_failures_not_fatal (w : World) (ledger : LedgerResponse)
    (elapsed : Z) :
  (forall e, snd (processLedger w ledger elapsed) = Some e ->
     db_fault (OpSaveCheckpoint (ledger_checkpoint ledger elapsed)) = Some e) /\
  ((forall c, snd (db_get_checkpoint w (to_i64 (LedgerIndex ledger))) <> Ok (Some c)) ->
   snd (processLedger w ledger elapsed) =
     db_fault (OpSaveCheckpoint (ledger_checkpoint ledger elapsed)) /\
   exists pre mid post,
     w_trace (fst (processLedger w ledger elapsed)) =
       w_trace w ++ pre ++ mid ++
       [EvDb (OpSaveCheckpoint (ledger_checkpoint ledger elapsed))] ++ post /\
     Forall (fun e => lookup_or_log e = true) pre /\
     Forall (fun e => tx_event e = true) mid /\
     (forall tx, In tx (Transactions ledger) -> tx_attempted ledger tx mid) /\
     Forall (fun e => is_log e = true) post).
Proof using db_fault verbose TxMap marshal unmarshal parse_amm parse_offer parse_offer_cancel.
  split.
  - intros e He.
    destruct (snd (db_get_checkpoint w (to_i64 (LedgerIndex ledger))))
      as [[c|]|err] eqn:Hg.
    + rewrite (processLedger_skip w ledger elapsed c Hg) in He. discriminate.
    + assert (Hguard : forall c, snd (db_get_checkpoint w (to_i64 (LedgerIndex ledger)))
                                 <> Ok (Some c)) by (intros c; rewrite Hg; discriminate).
      destruct (processLedger_proceeds w ledger elapsed Hguard)
        as (_ & _ & _ & _ & _ & _ & _ & _ & Hr). congruence.
    + assert (Hguard : forall c, snd (db_get_checkpoint w (to_i64 (LedgerIndex ledger)))
                                 <> Ok (Some c)) by (intros c; rewrite Hg; discriminate).
      destruct (processLedger_proceeds w ledger elapsed Hguard)
        as (_ & _ & _ & _ & _ & _ & _ & _ & Hr). congruence.
  - intros Hguard.
    destruct (processLedger_proceeds w ledger elapsed Hguard)
      as (cont & mid & post & Hc & Ht & Hmid & Hatt & Hpost & Hr).
    split; [exact Hr|].
    exists ([EvDb (OpGetCheckpoint (to_i64 (LedgerIndex ledger)))] ++ cont ++
            [EvLog (LProcessing (LedgerIndex ledger))]), mid, post.
    split; [rewrite Ht, <- !app_assoc; reflexivity|].
    split; [|auto].
    destruct (continuity_check_trace ledger
                (emit (EvDb (OpGetCheckpoint (to_i64 (LedgerIndex ledger)))) w))
      as (_ & cont' & Hc' & Hf').
    rewrite Hc in Hc'. cbn [w_trace emit] in Hc'. rewrite <- app_assoc in Hc'.
    apply app_inv_head in Hc'. apply app_inv_head in Hc'. subst cont'.
    apply Forall_app; split; [repeat constructor|].
    apply Forall_app; split; [exact Hf'|repeat constructor].
Qed.

(** C6 (code bug): a failing [ParseOfferCancel] is not logged unless
    verbose mode is on.  For a decoded ["OfferCancel"] transaction whose
    [ParseOfferCancel] returns an error, the parser call is the last event
    of the transaction when [-v] is off: no log line reports the failure
    ([logVerbose] at line 324 prints nothing); only with [-v] on does the
    "OfferCancel parse error" line follow.  The transaction loop still goes
    on and the checkpoint is still written
    ([processLedger_tx_failures_not_fatal]). *)
Theorem offer_cancel_parse_error_unlogged (ledger : LedgerResponse) (w : World)
    (tx : Transaction) (txBytes : string) (m : TxMap) (e : string) :
  marshal tx = Ok txBytes -> unmarshal txBytes = Ok m ->
  TransactionType tx = "OfferCancel"%string -> parse_offer_cancel m = Err e ->
  (verbose = false ->
   exists pre, w_trace (process_tx ledger w tx) = pre ++ [EvParseCancel (Hash tx)]) /\
  (verbose = true ->
   exists pre, w_trace (process_tx ledger w tx) =
     pre ++ [EvParseCancel (Hash tx); EvLog LCancelParseError]).
Proof using db_fault verbose TxMap marshal unmarshal parse_amm parse_offer parse_offer_cancel.
  intros Hm Hu Hty Hp. unfold process_tx, log_verbose, log.
  rewrite Hm, Hu, (bool_decide_true _ Hty), Hp.
  split; intros Hv; rewrite Hv; cbn [w_trace emit]; rewrite <- ?app_assoc;
    eexists; reflexivity.
Qed.

(** C9: the duplicate guard fails open: when the checkpoint lookup itself
    errors, [processLedger] does not skip (whatever the store holds): it runs
    the parsers on every decoded transaction, upserts what they return,
    writes the checkpoint and returns that write's result. *)
Theorem duplicate_guard_fails_open (w : World) (ledger : LedgerResponse)
    (elapsed : Z) (err : string) :
  db_fault (OpGetCheckpoint (to_i64 (LedgerIndex ledger))) = Some err ->
  snd (processLedger w ledger elapsed) =
    db_fault (OpSaveCheckpoint (ledger_checkpoint ledger elapsed)) /\
  (db_fault (OpSaveCheckpoint (ledger_checkpoint ledger elapsed)) = None ->
   checkpoints (w_db (fst (processLedger w ledger elapsed))) !!
     to_i64 (LedgerIndex ledger) = Some (ledger_checkpoint ledger elapsed)) /\
  exists pre mid post,
    w_trace (fst (processLedger w ledger elapsed)) =
      w_trace w ++ pre ++ mid ++
      [EvDb (OpSaveCheckpoint (ledger_checkpoint ledger elapsed))] ++ post /\
    (forall tx, In tx (Transactions ledger) -> tx_attempted ledger tx mid).
Proof using db_fault verbose TxMap marshal unmarshal parse_amm parse_offer parse_offer_cancel.
  intros Hf.
  assert (Hguard : forall c, snd (db_get_checkpoint w (to_i64 (LedgerIndex ledger)))
                             <> Ok (Some c)).
  { intros c. unfold db_get_checkpoint. rewrite Hf. discriminate. }
  destruct (processLedger_proceeds w ledger elapsed Hguard)
    as (cont & mid & post & _ & Ht & _ & Hatt & _ & Hr).
  split; [exact Hr|]. split.
  - intros Hs. exact (processLedger_saves w ledger elapsed Hguard Hs).
  - exists ([EvDb (OpGetCheckpoint (to_i64 (LedgerIndex ledger)))] ++ cont ++
            [EvLog (LProcessing (LedgerIndex ledger))]), mid, post.
    split; [rewrite Ht, <- !app_assoc; reflexivity|exact Hatt].
Qed.

(** C8 (code bug): the continuity check never blocks, but it never reports
    a discontinuity either, although the code says it is there to "detect
    forks/corruption" and "verify sequential processing".  For a
    ledger with index > 1 let through by the duplicate guard, the preceding
    checkpoint is looked up, and whatever the lookup gives the transactions
    are all attempted and the checkpoint write decides the result; the only
    log line the check can add is the verbose "verified sequential" line when
    the preceding checkpoint is present: when it is absent (or its lookup
    fails) nothing is logged. *)
Theorem continuity_check_never_blocks (w : World) (ledger : LedgerResponse)
    (elapsed : Z) :
  1 < LedgerIndex ledger ->
  (forall c, snd (db_get_checkpoint w (to_i64 (LedgerIndex ledger))) <> Ok (Some c)) ->
  snd (processLedger w ledger elapsed) =
    db_fault (OpSaveCheckpoint (ledger_checkpoint ledger elapsed)) /\
  exists mid post,
    w_trace (fst (processLedger w ledger elapsed)) =
      w_trace w ++ [EvDb (OpGetCheckpoint (to_i64 (LedgerIndex ledger)));
                    EvDb (OpGetCheckpoint (to_i64 (LedgerIndex ledger - 1)))] ++
      match db_fault (OpGetCheckpoint (to_i64 (LedgerIndex ledger - 1))),
            checkpoints (w_db w) !! to_i64 (LedgerIndex ledger - 1) with
      | None, Some p =>
        if verbose then [EvLog (LVerifiedSequential (LedgerIndex ledger) (cp_LedgerIndex p))]
        else []
      | _, _ => []
      end ++
      [EvLog (LProcessing (LedgerIndex ledger))] ++ mid ++
      [EvDb (OpSaveCheckpoint (ledger_checkpoint ledger elapsed))] ++ post /\
    (forall tx, In tx (Transactions ledger) -> tx_attempted ledger tx mid).
Proof using db_fault verbose TxMap marshal unmarshal parse_amm parse_offer parse_offer_cancel.
  intros Hidx Hguard.
  destruct (processLedger_proceeds w ledger elapsed Hguard)
    as (cont & mid & post & Hc & Ht & _ & Hatt & _ & Hr).
  split; [exact Hr|]. exists mid, post. split; [|exact Hatt].
  rewrite Ht. f_equal.
  rewrite (continuity_check_events _ ledger Hidx) in Hc.
  cbn [w_trace w_db emit] in Hc. rewrite <- app_assoc in Hc.
  apply app_inv_head in Hc. simpl in Hc. injection Hc as Hc.
  rewrite <- Hc. simpl. rewrite <- ?app_assoc. reflexivity.
Qed.

(** ** The backfill goroutine *)

Lemma lookup_or_log_no_fetch (e : Event) : lookup_or_log e = true -> is_fetch e = false.
Proof. destruct e as [op| | | | | |]; [destruct op|..]; simpl; congruence. Qed.

Lemma tx_event_no_fetch (e : Event) : tx_event e = true -> is_fetch e = false.
Proof. destruct e as [op| | | | | |]; [destruct op|..]; simpl; congruence. Qed.

Lemma is_log_no_fetch (e : Event) : is_log e = true -> is_fetch e = false.
Proof. destruct e as [op| | | | | |]; [destruct op|..]; simpl; congruence. Qed.

Lemma Forall_no_fetch (P : Event -> bool) (l : list Event) :
  (forall e, P e = true -> is_fetch e = false) ->
  Forall (fun e => P e = true) l -> Forall (fun e => is_fetch e = false) l.
Proof. intros HP. induction 1; constructor; auto. Qed.

Lemma fetched_indices_app (a b : list Event) :
  fetched_indices (a ++ b) = fetched_indices a ++ fetched_indices b.
Proof.
  induction a as [|e a IH]; [reflexivity|].
  cbn [app]. unfold fetched_indices in *. cbn [flat_map]. rewrite IH, app_assoc.
  reflexivity.
Qed.

Lemma fetched_no_fetch (l : list Event) :
  Forall (fun e => is_fetch e = false) l -> fetched_indices l = [].
Proof.
  induction 1 as [|e l He _ IH]; [reflexivity|].
  unfold fetched_indices in *. cbn [flat_map].
  destruct e; simpl in He; try discriminate; exact IH.
Qed.

Lemma zrange_cons (a b : Z) : a < b -> zrange a b = a :: zrange (a + 1) b.
Proof.
  intros H. unfold zrange.
  replace (Z.to_nat (b - a)) with (S (Z.to_nat (b - (a + 1)))) by lia.
  cbn [seq map]. f_equal; [lia|].
  rewrite <- seq_shift, map_map. apply List.map_ext. intros k. lia.
Qed.

(** [processLedger] never fetches from the backfill source. *)
Lemma processLedger_no_fetch (w : World) (ledger : LedgerResponse) (elapsed : Z) :
  exists ext, w_trace (fst (processLedger w ledger elapsed)) = w_trace w ++ ext /\
              Forall (fun e => is_fetch e = false) ext.
Proof.
  destruct (snd (db_get_checkpoint w (to_i64 (LedgerIndex ledger))))
    as [[c|]|err] eqn:Hg.
  - rewrite (processLedger_skip w ledger elapsed c Hg).
    unfold log_verbose, log. destruct verbose; cbn [fst w_trace emit];
      (eexists; split; [rewrite <- ?app_assoc; reflexivity|]); repeat constructor.
  - assert (Hguard : forall c, snd (db_get_checkpoint w (to_i64 (LedgerIndex ledger)))
                               <> Ok (Some c)) by (intros c; rewrite Hg; discriminate).
    destruct (processLedger_proceeds w ledger elapsed Hguard)
      as (cont & mid & post & Hc & Ht & Hmid & _ & Hpost & _).
    destruct (continuity_check_trace ledger
                (emit (EvDb (OpGetCheckpoint (to_i64 (LedgerIndex ledger)))) w))
      as (_ & cont' & Hc' & Hf').
    rewrite Hc in Hc'. cbn [w_trace emit] in Hc'. rewrite <- app_assoc in Hc'.
    apply app_inv_head in Hc'. apply app_inv_head in Hc'. subst cont'.
    eexists; split; [exact Ht|].
    repeat (apply Forall_app; split); try (repeat constructor; fail).
    + exact (Forall_no_fetch _ _ lookup_or_log_no_fetch Hf').
    + exact (Forall_no_fetch _ _ tx_event_no_fetch Hmid).
    + exact (Forall_no_fetch _ _ is_log_no_fetch Hpost).
  - assert (Hguard : forall c, snd (db_get_checkpoint w (to_i64 (LedgerIndex ledger)))
                               <> Ok (Some c)) by (intros c; rewrite Hg; discriminate).
    destruct (processLedger_proceeds w ledger elapsed Hguard)
      as (cont & mid & post & Hc & Ht & Hmid & _ & Hpost & _).
    destruct (continuity_check_trace ledger
                (emit (EvDb (OpGetCheckpoint (to_i64 (LedgerIndex ledger)))) w))
      as (_ & cont' & Hc' & Hf').
    rewrite Hc in Hc'. cbn [w_trace emit] in Hc'. rewrite <- app_assoc in Hc'.
    apply app_inv_head in Hc'. apply app_inv_head in Hc'. subst cont'.
    eexists; split; [exact Ht|].
    repeat (apply Forall_app; split); try (repeat constructor; fail).
    + exact (Forall_no_fetch _ _ lookup_or_log_no_fetch Hf').
    + exact (Forall_no_fetch _ _ tx_event_no_fetch Hmid).
    + exact (Forall_no_fetch _ _ is_log_no_fetch Hpost).
Qed.

(** Nor does a turn of the primary loop. *)
Lemma live_step_no_fetch (w : World) (ev : LiveEvent) :
  exists ext, w_trace (fst (live_step w ev)) = w_trace w ++ ext /\
              Forall (fun e => is_fetch e = false) ext.
Proof.
  destruct ev as [|e|ledger]; cbn [live_step].
  - eexists; split; [reflexivity|]. repeat constructor.
  - eexists; split; [reflexivity|]. repeat constructor.
  - destruct (processLedger_no_fetch w ledger (clock_ms ledger)) as (ext & Ht & Hf).
    destruct (processLedger w ledger (clock_ms ledger)) as [w1 [err|]].
    + cbn [fst] in Ht |- *. unfold log, emit. cbn [w_trace]. rewrite Ht.
      exists (ext ++ [EvLog (LProcessError (LedgerIndex ledger))]).
      split; [rewrite <- app_assoc; reflexivity|].
      apply Forall_app; split; [exact Hf|repeat constructor].
    + exists ext. split; [exact Ht|exact Hf].
Qed.

(** The three attempts of the retry loop. *)
Lemma fetch_with_retry_cases (i : Z) (w : World) :
  (exists k ledger,
     (k < 3)%nat /\ (forall r, (r < k)%nat -> exists e, fetch_ledger i r = Err e) /\
     fetch_ledger i k = Ok ledger /\
     fetch_with_retry i w =
       (mkWorld (w_db w)
          (w_trace w ++ flat_map (failed_attempt i) (seq 0 k) ++ [EvFetch i k]),
        Ok ledger)) \/
  ((forall r, (r < 3)%nat -> exists e, fetch_ledger i r = Err e) /\
   exists e, fetch_with_retry i w =
     (mkWorld (w_db w) (w_trace w ++ flat_map (failed_attempt i) (seq 0 3)), Err e)).
Proof.
  unfold fetch_with_retry. cbn [fetch_loop].
  destruct (fetch_ledger i 0) as [l0|e0] eqn:H0.
  { left. exists 0%nat, l0. split; [lia|]. split; [intros; lia|].
    split; [exact H0|reflexivity]. }
  destruct (fetch_ledger i 1) as [l1|e1] eqn:H1.
  { left. exists 1%nat, l1. split; [lia|]. split.
    - intros r Hr. assert (r = 0%nat) as -> by lia. eauto.
    - split; [exact H1|]. unfold log, emit. cbn [w_db w_trace].
      rewrite <- !app_assoc. reflexivity. }
  destruct (fetch_ledger i 2) as [l2|e2] eqn:H2.
  { left. exists 2%nat, l2. split; [lia|]. split.
    - intros r Hr. assert (r = 0%nat \/ r = 1%nat) as [-> | ->] by lia; eauto.
    - split; [exact H2|]. unfold log, emit. cbn [w_db w_trace].
      rewrite <- !app_assoc. reflexivity. }
  right. split.
  - intros r Hr. assert (r = 0%nat \/ r = 1%nat \/ r = 2%nat) as [-> | [-> | ->]] by lia;
      eauto.
  - exists e2. unfold log, emit. cbn [w_db w_trace].
    rewrite <- !app_assoc. reflexivity.
Qed.

(** A ledger all of whose attempts fail stops the goroutine. *)
Lemma bf_step_abort (cur missing i count errors : Z) (w : World) :
  i < cur -> (forall r, (r < 3)%nat -> exists e, fetch_ledger i r = Err e) ->
  bf_step cur missing w (BfRunning i count errors) =
    Some (mkWorld (w_db w) (w_trace w ++ flat_map (failed_attempt i) (seq 0 3) ++
                              [EvLog (LBackfillStop i)]),
          BfAborted i).
Proof.
  intros Hlt Hall. unfold bf_step.
  destruct (Z.ltb_spec i cur); [|lia].
  destruct (fetch_with_retry_cases i w) as [(k & l & Hk & _ & Hok & _) | (_ & e & He)].
  - destruct (Hall k Hk) as [e He]. congruence.
  - rewrite He. unfold log, emit. cbn [w_db w_trace]. rewrite <- app_assoc. reflexivity.
Qed.

(** A ledger fetched within three attempts is processed and the goroutine
    moves to the next index; of the fetches made, only [i]'s first attempt
    starts a ledger. *)
Lemma bf_step_fetched (cur missing i count errors : Z) (w : World) :
  i < cur -> (exists r ledger, (r < 3)%nat /\ fetch_ledger i r = Ok ledger) ->
  exists w' count' errors' ext,
    bf_step cur missing w (BfRunning i count errors) =
      Some (w', BfRunning (i + 1) count' errors') /\
    w_trace w' = w_trace w ++ ext /\ fetched_indices ext = [i].
Proof.
  intros Hlt (r & l0 & Hr & Hok). unfold bf_step.
  destruct (Z.ltb_spec i cur); [|lia].
  destruct (fetch_with_retry_cases i w)
    as [(k & l & Hk & _ & Hokk & Hf) | (Hall & e & He)].
  2:{ destruct (Hall r Hr) as [e' He']. congruence. }
  rewrite Hf.
  set (w1 := mkWorld (w_db w)
               (w_trace w ++ flat_map (failed_attempt i) (seq 0 k) ++ [EvFetch i k])).
  assert (Hk1 : forall rest,
             fetched_indices (flat_map (failed_attempt i) (seq 0 k) ++ [EvFetch i k] ++ rest)
             = i :: fetched_indices rest).
  { intros rest. destruct k as [|[|[|k]]]; [reflexivity|reflexivity|reflexivity|lia]. }
  destruct (processLedger_no_fetch w1 l (clock_ms l)) as (ext2 & Ht2 & Hf2).
  destruct (processLedger w1 l (clock_ms l)) as [w2 [err|]]; cbn [fst] in Ht2;
    cbv beta iota zeta.
  - destruct (_ =? 0); (eexists _, _, _, _; split; [reflexivity|]);
      unfold log, emit; cbn [w_trace]; rewrite Ht2; unfold w1; cbn [w_trace];
      (split; [rewrite <- !app_assoc; reflexivity|]);
      rewrite Hk1, ?fetched_indices_app, (fetched_no_fetch _ Hf2); reflexivity.
  - destruct (_ =? 0); (eexists _, _, _, _; split; [reflexivity|]);
      unfold log, emit; cbn [w_trace]; rewrite Ht2; unfold w1; cbn [w_trace];
      (split; [rewrite <- !app_assoc; reflexivity|]);
      rewrite Hk1, ?fetched_indices_app, (fetched_no_fetch _ Hf2); reflexivity.
Qed.

Lemma bf_run_S (n : nat) (cur missing : Z) (w : World) (s : BfState) :
  bf_run (S n) cur missing w s =
    match bf_step cur missing w s with
    | Some (w', s') => bf_run n cur missing w' s'
    | None => (w, s)
    end.
Proof. reflexivity. Qed.

(** When every ledger of [[i, cur)] is fetched within three attempts, the
    goroutine starts the ledgers [i, i+1, ..., cur-1] in this order, each
    once, and completes. *)
Lemma bf_run_walk (cur missing : Z) :
  forall n i w count errors,
    Z.to_nat (cur - i) = n -> i <= cur ->
    (forall j, i <= j < cur -> exists r ledger, (r < 3)%nat /\ fetch_ledger j r = Ok ledger) ->
    exists ext count' errors',
      w_trace (fst (bf_run (S n) cur missing w (BfRunning i count errors))) =
        w_trace w ++ ext /\
      snd (bf_run (S n) cur missing w (BfRunning i count errors)) = BfDone count' errors' /\
      fetched_indices ext = zrange i cur.
Proof.
  induction n as [|n IH]; intros i w count errors Hn Hle Hok.
  - assert (i = cur) by lia. subst i.
    rewrite bf_run_S. unfold bf_step. rewrite Z.ltb_irrefl. cbn [bf_run fst snd].
    exists [EvLog (LBackfillComplete count errors)], count, errors.
    split; [reflexivity|]. split; [reflexivity|].
    unfold zrange. rewrite Z.sub_diag. reflexivity.
  - assert (Hlt : i < cur) by lia.
    destruct (bf_step_fetched cur missing i count errors w Hlt (Hok i ltac:(lia)))
      as (w' & c' & e' & ext1 & Hs & Ht1 & Hf1).
    rewrite bf_run_S, Hs.
    destruct (IH (i + 1) w' c' e' ltac:(lia) ltac:(lia) ltac:(intros j Hj; apply Hok; lia))
      as (ext2 & c2 & e2 & Ht2 & Hd & Hf2).
    exists (ext1 ++ ext2), c2, e2.
    split; [rewrite Ht2, Ht1, app_assoc; reflexivity|].
    split; [exact Hd|].
    rewrite fetched_indices_app, Hf1, Hf2. symmetry. apply zrange_cons. exact Hlt.
Qed.

(** An aborted goroutine stays returned: every step of the process keeps it
    aborted and fetches nothing. *)
Lemma sys_step_aborted (cur missing i : Z) (s s' : Sys) :
  sys_step cur missing s s' -> sys_bf s = BfAborted i ->
  sys_bf s' = BfAborted i /\
  exists ext, w_trace (sys_world s') = w_trace (sys_world s) ++ ext /\
              Forall (fun e => is_fetch e = false) ext.
Proof.
  intros Hstep Hb. destruct Hstep as [s w' b' Hbf | s ev w' k Hlive Hl].
  - rewrite Hb in Hbf. discriminate.
  - cbn [sys_bf sys_world]. split; [exact Hb|].
    destruct (live_step_no_fetch (sys_world s) ev) as (ext & Ht & Hf).
    rewrite Hl in Ht. exists ext. split; [exact Ht|exact Hf].
Qed.

Lemma sys_steps_aborted (cur missing i : Z) (s s' : Sys) :
  rtc (sys_step cur missing) s s' -> sys_bf s = BfAborted i ->
  sys_bf s' = BfAborted i /\
  exists ext, w_trace (sys_world s') = w_trace (sys_world s) ++ ext /\
              Forall (fun e => is_fetch e = false) ext.
Proof.
  induction 1 as [s|s s1 s' Hstep _ IH]; intros Hb.
  - split; [exact Hb|]. exists []. split; [rewrite app_nil_r; reflexivity|constructor].
  - destruct (sys_step_aborted cur missing i s s1 Hstep Hb) as (Hb1 & ext1 & Ht1 & Hf1).
    destruct (IH Hb1) as (Hb' & ext2 & Ht2 & Hf2).
    split; [exact Hb'|]. exists (ext1 ++ ext2).
    split; [rewrite Ht2, Ht1, app_assoc; reflexivity|].
    apply Forall_app; split; assumption.
Qed.

(** ** Claims on the backfill goroutine *)

(** C5: a ledger [i] of the backfill is fetched in at most three attempts,
    the [r]-th failure (0-based) followed by a retry log line and a sleep of
    [r+1] seconds; when all three fail the goroutine logs the stop and
    returns.  From then on, whatever the primary loop does, the goroutine
    stays returned and nothing more is fetched, and the primary loop can
    still take each of its events, with the outcome [live_step] gives
    without any backfill. *)
Theorem backfill_retry_abort (cur missing i count errors : Z) (w : World) :
  i < cur ->
  ((exists k ledger,
      (k < 3)%nat /\ (forall r, (r < k)%nat -> exists e, fetch_ledger i r = Err e) /\
      fetch_ledger i k = Ok ledger /\
      fetch_with_retry i w =
        (mkWorld (w_db w)
           (w_trace w ++ flat_map (failed_attempt i) (seq 0 k) ++ [EvFetch i k]),
         Ok ledger)) \/
   ((forall r, (r < 3)%nat -> exists e, fetch_ledger i r = Err e) /\
    exists e, fetch_with_retry i w =
      (mkWorld (w_db w) (w_trace w ++ flat_map (failed_attempt i) (seq 0 3)), Err e))) /\
  ((forall r, (r < 3)%nat -> exists e, fetch_ledger i r = Err e) ->
   let w' := mkWorld (w_db w) (w_trace w ++ flat_map (failed_attempt i) (seq 0 3) ++
                                 [EvLog (LBackfillStop i)]) in
   bf_step cur missing w (BfRunning i count errors) = Some (w', BfAborted i) /\
   forall live s',
     rtc (sys_step cur missing) (mkSys w' (BfAborted i) live) s' ->
     sys_bf s' = BfAborted i /\
     (exists ext, w_trace (sys_world s') = w_trace w' ++ ext /\
                  Forall (fun e => is_fetch e = false) ext) /\
     (sys_live s' = true -> forall ev,
        sys_step cur missing s'
          (mkSys (fst (live_step (sys_world s') ev)) (BfAborted i)
                 (snd (live_step (sys_world s') ev))))).
Proof.
  intros Hlt. split; [apply fetch_with_retry_cases|].
  intros Hall w'. split; [exact (bf_step_abort cur missing i count errors w Hlt Hall)|].
  intros live s' Hrtc.
  destruct (sys_steps_aborted cur missing i _ s' Hrtc eq_refl) as (Hb & Htr).
  split; [exact Hb|]. split; [exact Htr|].
  intros Hlive ev. rewrite <- Hb.
  destruct (live_step (sys_world s') ev) as [w2 k] eqn:Hl. cbn [fst snd].
  exact (step_live cur missing s' ev w2 k Hlive Hl).
Qed.

(** C2 (as the code has it): with a checkpoint, [gap = current -
    checkpoint] (uint64); [gap <= 1] means no backfill; a launched backfill
    has [missing = gap - 1], starts at [backfillStart] and, when every ledger
    is fetched within its three attempts, starts the ledgers
    [backfillStart, ..., current - 1] in ascending order, each once, and
    completes.  The examples of checkpoint 1000 and current 1001, 1006 and
    1101 hold when the start-ledger cutoff is at most 1001. *)
Theorem gap_backfill_range (cp : LedgerCheckpoint) (cur start : Z) :
  (gap_of (cp_LedgerIndex cp) cur <= 1 -> gap_decision (Some cp) cur start = NoGap) /\
  (forall bs c m, gap_decision (Some cp) cur start = LaunchBackfill bs c m ->
     m = gap_of (cp_LedgerIndex cp) cur - 1 /\
     bs = backfill_start (cp_LedgerIndex cp) start /\ c = cur /\
     forall w count errors,
       (forall j, bs <= j < cur ->
          exists r ledger, (r < 3)%nat /\ fetch_ledger j r = Ok ledger) ->
       exists ext count' errors',
         w_trace (fst (bf_run (S (Z.to_nat (cur - bs))) cur m w (BfRunning bs count errors)))
           = w_trace w ++ ext /\
         snd (bf_run (S (Z.to_nat (cur - bs))) cur m w (BfRunning bs count errors))
           = BfDone count' errors' /\
         fetched_indices ext = zrange bs cur) /\
  (start <= 1001 ->
     gap_decision (Some (checkpoint_at 1000)) 1001 start = NoGap /\
     gap_decision (Some (checkpoint_at 1000)) 1006 start = LaunchBackfill 1001 1006 5 /\
     zrange 1001 1006 = [1001; 1002; 1003; 1004; 1005] /\
     gap_decision (Some (checkpoint_at 1000)) 1101 start = LaunchBackfill 1001 1101 100 /\
     (forall j, In j (zrange 1001 1101) <-> 1001 <= j <= 1100)).
Proof.
  split; [|split].
  - intros Hle. unfold gap_decision.
    destruct (Z.ltb_spec 1 (gap_of (cp_LedgerIndex cp) cur)); [lia|reflexivity].
  - intros bs c m Hd.
    destruct (gap_decision_launch cp cur start bs c m Hd)
      as (_ & Hm & _ & Hbs & Hlt & Hc).
    split; [exact Hm|]. split; [exact Hbs|]. split; [exact Hc|].
    intros w count errors Hok.
    apply bf_run_walk; [reflexivity|lia|exact Hok].
  - intros Hs.
    assert (Hb : backfill_start 1000 start = 1001).
    { rewrite backfill_start_max by lia. lia. }
    unfold gap_decision. cbn [cp_LedgerIndex checkpoint_at]. rewrite Hb.
    split; [reflexivity|]. split; [reflexivity|]. split; [reflexivity|].
    split; [reflexivity|].
    intros j. unfold zrange. rewrite in_map_iff. split.
    + intros (k & <- & Hk). apply in_seq in Hk. cbn in Hk. lia.
    + intros Hj. exists (Z.to_nat (j - 1001)). split; [lia|].
      apply in_seq. cbn. lia.
Qed.

(** ** What the store keeps *)

Lemma store_grows_refl (s : Store) : store_grows s s.
Proof using. unfold store_grows. auto. Qed.

Lemma store_grows_trans (s1 s2 s3 : Store) :
  store_grows s1 s2 -> store_grows s2 s3 -> store_grows s1 s3.
Proof using.
  unfold store_grows. intros (H1 & H2 & H3) (G1 & G2 & G3). auto.
Qed.

Lemma store_grows_upsert_pool (p : AMMPool) (s s' : Store) :
  store_grows s s' -> store_grows s (upsert_pool p s').
Proof using.
  unfold store_grows, upsert_pool. cbn [checkpoints pools offers].
  intros (Hc & Hp & Ho). split; [exact Hc|]. split; [|exact Ho].
  intros k Hk. rewrite lookup_insert_is_Some'. right. auto.
Qed.

Lemma store_grows_upsert_offer (o : Offer) (s s' : Store) :
  store_grows s s' -> store_grows s (upsert_offer o s').
Proof using.
  unfold store_grows, upsert_offer. cbn [checkpoints pools offers].
  intros (Hc & Hp & Ho). split; [exact Hc|]. split; [exact Hp|].
  intros k Hk. rewrite lookup_insert_is_Some'. right. auto.
Qed.

Lemma store_grows_cancel_offer (account : string) (seq l : Z) (s s' : Store) :
  store_grows s s' -> store_grows s (cancel_offer account seq l s').
Proof using.
  unfold store_grows, cancel_offer. cbn [checkpoints pools offers].
  intros (Hc & Hp & Ho). split; [exact Hc|]. split; [exact Hp|].
  intros k Hk. rewrite lookup_fmap. destruct (Ho k Hk) as [o ->]. eexists. reflexivity.
Qed.

Lemma store_grows_save_checkpoint (cp : LedgerCheckpoint) (s s' : Store) :
  store_grows s s' -> store_grows s (save_checkpoint cp s').
Proof using.
  unfold store_grows, save_checkpoint. cbn [checkpoints pools offers].
  intros (Hc & Hp & Ho). split; [|split; [exact Hp|exact Ho]].
  intros k Hk. rewrite lookup_insert_is_Some'. right. auto.
Qed.

Create HintDb store_grows.
#[local] Hint Resolve store_grows_refl store_grows_upsert_pool store_grows_upsert_offer
  store_grows_cancel_offer : store_grows.

Lemma w_db_emit (ev : Event) (w : World) : w_db (emit ev w) = w_db w.
Proof using. reflexivity. Qed.

Lemma w_db_log (m : LogMsg) (w : World) : w_db (log m w) = w_db w.
Proof using. reflexivity. Qed.

(** A transaction only upserts and cancels: it removes nothing and leaves
    the checkpoints alone. *)
Lemma process_tx_store (ledger : LedgerResponse) (w : World) (tx : Transaction) :
  store_grows (w_db w) (w_db (process_tx ledger w tx)) /\
  checkpoints (w_db (process_tx ledger w tx)) = checkpoints (w_db w).
Proof using db_fault verbose TxMap marshal unmarshal parse_amm parse_offer parse_offer_cancel.
  unfold process_tx, db_write, log_verbose, log.
  repeat case_match; simplify_eq; cbn [w_db emit set_db];
    (split; [eauto 10 with store_grows | reflexivity]).
Qed.

Lemma fold_process_tx_store (ledger : LedgerResponse) (txs : list Transaction)
    (w : World) :
  store_grows (w_db w) (w_db (fold_left (process_tx ledger) txs w)) /\
  checkpoints (w_db (fold_left (process_tx ledger) txs w)) = checkpoints (w_db w).
Proof using db_fault verbose TxMap marshal unmarshal parse_amm parse_offer parse_offer_cancel.
  revert w. induction txs as [|tx txs IH]; intros w; simpl.
  - split; [apply store_grows_refl|reflexivity].
  - destruct (process_tx_store ledger w tx) as [G1 C1].
    destruct (IH (process_tx ledger w tx)) as [G2 C2].
    split; [exact (store_grows_trans _ _ _ G1 G2) | congruence].
Qed.

(** The store effect of [processLedger]: nothing is removed, and the
    checkpoints are either left as they were or gain the ledger's own
    checkpoint, the latter only when its write succeeds. *)
Lemma processLedger_store (w : World) (ledger : LedgerResponse) (elapsed : Z) :
  store_grows (w_db w) (w_db (fst (processLedger w ledger elapsed))) /\
  (checkpoints (w_db (fst (processLedger w ledger elapsed))) = checkpoints (w_db w) \/
   db_fault (OpSaveCheckpoint (ledger_checkpoint ledger elapsed)) = None /\
   checkpoints (w_db (fst (processLedger w ledger elapsed))) =
     <[to_i64 (LedgerIndex ledger) := ledger_checkpoint ledger elapsed]>
       (checkpoints (w_db w))).
Proof using db_fault verbose TxMap marshal unmarshal parse_amm parse_offer parse_offer_cancel.
  unfold processLedger.
  pose proof (db_get_checkpoint_world w (to_i64 (LedgerIndex ledger))) as Hw.
  destruct (db_get_checkpoint w (to_i64 (LedgerIndex ledger))) as [w1 r].
  simpl in Hw. subst w1.
  destruct r as [[c|]|e]; cbv beta iota zeta.
  1: { cbn [fst]. rewrite log_verbose_db, w_db_emit.
       split; [apply store_grows_refl | left; reflexivity]. }
  all: set (W2 := fold_left _ _ _).
  all: assert (HG : store_grows (w_db w) (w_db W2) /\
                    checkpoints (w_db W2) = checkpoints (w_db w))
         by (unfold W2; destruct (fold_process_tx_store ledger (Transactions ledger)
               (log (LProcessing (LedgerIndex ledger))
                  (continuity_check ledger
                     (emit (EvDb (OpGetCheckpoint (to_i64 (LedgerIndex ledger)))) w))))
               as [G C];
             rewrite C; rewrite w_db_log, (proj1 (continuity_check_trace _ _)), w_db_emit in *;
             split; [exact G | reflexivity]).
  all: clearbody W2; destruct HG as [G C]; unfold db_write.
  all: destruct (db_fault (OpSaveCheckpoint (ledger_checkpoint ledger elapsed))) eqn:Hf;
    cbn [fst].
  1,3: split; [exact G | left; exact C].
  all: split; [apply store_grows_save_checkpoint; exact G|].
  all: right; split; [reflexivity|]; rewrite <- C; reflexivity.
Qed.

(** X6: a transaction whose type is not ["OfferCancel"] never reaches the
    cancel branch: neither [ParseOfferCancel] nor [CancelOffer] is called
    for it. *)
Theorem process_tx_cancel_only_offercancel (ledger : LedgerResponse) (w : World)
    (tx : Transaction) :
  TransactionType tx <> "OfferCancel"%string ->
  exists ext, w_trace (process_tx ledger w tx) = w_trace w ++ ext /\
              Forall (fun e => is_cancel e = false) ext.
Proof using db_fault verbose TxMap marshal unmarshal parse_amm parse_offer parse_offer_cancel.
  intros Hty. unfold process_tx, db_write, log_verbose, log.
  rewrite (bool_decide_false _ Hty).
  repeat case_match; simplify_eq; cbn [w_trace w_db emit set_db];
    (eexists; split; [rewrite <- ?app_assoc; reflexivity|]);
    cbn [app]; repeat constructor.
Qed.

(** X7: a transaction that [json.Marshal] or [json.Unmarshal] rejects is
    skipped: no parser and no store call is made for it, the store is
    unchanged and only log lines are added. *)
Theorem process_tx_decode_failure (ledger : LedgerResponse) (w : World)
    (tx : Transaction) :
  (exists e, marshal tx = Err e) \/
  (exists txBytes e, marshal tx = Ok txBytes /\ unmarshal txBytes = Err e) ->
  w_db (process_tx ledger w tx) = w_db w /\
  exists ext, w_trace (process_tx ledger w tx) = w_trace w ++ ext /\
              Forall (fun e => is_log e = true) ext.
Proof using db_fault verbose TxMap marshal unmarshal parse_amm parse_offer parse_offer_cancel.
  intros [[e He] | (b & e & Hb & He)]; unfold process_tx, log_verbose, log;
    [rewrite He | rewrite Hb, He]; destruct verbose; cbn [w_db w_trace emit];
    (split; [reflexivity|]);
    (eexists; split; [rewrite <- ?app_assoc; reflexivity|]); repeat constructor.
Qed.

(** X8: [processLedger] writes no checkpoint but the ledger's own: the
    checkpoints table after the call is the one before, or the one before
    with the entry [int64(ledger.LedgerIndex)] set to the ledger's
    checkpoint. *)
Theorem processLedger_checkpoint_writes (w : World) (ledger : LedgerResponse)
    (elapsed : Z) :
  checkpoints (w_db (fst (processLedger w ledger elapsed))) = checkpoints (w_db w) \/
  checkpoints (w_db (fst (processLedger w ledger elapsed))) =
    <[to_i64 (LedgerIndex ledger) := ledger_checkpoint ledger elapsed]>
      (checkpoints (w_db w)).
Proof using db_fault verbose TxMap marshal unmarshal parse_amm parse_offer parse_offer_cancel.
  destruct (processLedger_store w ledger elapsed) as [_ [H | [_ H]]]; auto.
Qed.

(** X9: when [SaveCheckpoint] fails, [processLedger] leaves the
    checkpoints table exactly as it was; so a ledger that had no checkpoint
    still has none, and its next delivery (with a working lookup) is not
    skipped: it is processed again, every transaction attempted and the
    checkpoint written anew. *)
Theorem processLedger_save_failure_keeps_checkpoints (w : World)
    (ledger : LedgerResponse) (elapsed elapsed' : Z) (e : string) :
  db_fault (OpSaveCheckpoint (ledger_checkpoint ledger elapsed)) = Some e ->
  checkpoints (w_db (fst (processLedger w ledger elapsed))) = checkpoints (w_db w) /\
  (checkpoints (w_db w) !! to_i64 (LedgerIndex ledger) = None ->
   db_fault (OpGetCheckpoint (to_i64 (LedgerIndex ledger))) = None ->
   exists pre mid post,
     w_trace (fst (processLedger (fst (processLedger w ledger elapsed)) ledger elapsed')) =
       w_trace (fst (processLedger w ledger elapsed)) ++
       [EvDb (OpGetCheckpoint (to_i64 (LedgerIndex ledger)))] ++ pre ++
       [EvLog (LProcessing (LedgerIndex ledger))] ++ mid ++
       [EvDb (OpSaveCheckpoint (ledger_checkpoint ledger elapsed'))] ++ post /\
     (forall tx, In tx (Transactions ledger) -> tx_attempted ledger tx mid)).
Proof using db_fault verbose TxMap marshal unmarshal parse_amm parse_offer parse_offer_cancel.
  intros Hf.
  assert (Hc : checkpoints (w_db (fst (processLedger w ledger elapsed))) =
               checkpoints (w_db w)).
  { destruct (processLedger_store w ledger elapsed) as [_ [H | [Hn _]]];
      [exact H | congruence]. }
  split; [exact Hc|].
  intros Hnone Hget.
  set (w' := fst (processLedger w ledger elapsed)) in *.
  assert (Hguard : forall c, snd (db_get_checkpoint w' (to_i64 (LedgerIndex ledger)))
                             <> Ok (Some c)).
  { intros c. unfold db_get_checkpoint. rewrite Hget. cbn [snd w_db emit].
    rewrite Hc, Hnone. discriminate. }
  destruct (processLedger_proceeds w' ledger elapsed' Hguard)
    as (cont & mid & post & _ & Ht & _ & Hatt & _ & _).
  exists cont, mid, post. split; [exact Ht | exact Hatt].
Qed.

(** X10: [processLedger] never deletes: every checkpoint, pool and offer
    key present in the store before the call is present after it, whatever
    the faults of the store. *)
Theorem processLedger_never_deletes (w : World) (ledger : LedgerResponse)
    (elapsed : Z) :
  store_grows (w_db w) (w_db (fst (processLedger w ledger elapsed))).
Proof using db_fault verbose TxMap marshal unmarshal parse_amm parse_offer parse_offer_cancel.
  exact (proj1 (processLedger_store w ledger elapsed)).
Qed.

(** X11: the primary loop ends only on a shutdown signal: client errors
    and failed ledgers keep it running. *)
Theorem live_loop_stops_only_on_signal (w : World) (ev : LiveEvent) :
  snd (live_step w ev) = false <-> ev = SigTerm.
Proof using db_fault verbose TxMap marshal unmarshal parse_amm parse_offer
  parse_offer_cancel clock_ms.
  destruct ev as [|e|ledger]; cbn [live_step snd].
  - split; intros _; reflexivity.
  - split; intros H; discriminate.
  - destruct (processLedger w ledger (clock_ms ledger)) as [w' [e|]];
      cbn [snd]; split; intros H; discriminate.
Qed.

(** One backfill iteration counts the ledger it walks exactly once, as
    processed or as failed; aborting and completing leave the counters. *)
Lemma bf_step_counts (cur missing i count errors : Z) (w w' : World) (s' : BfState) :
  bf_step cur missing w (BfRunning i count errors) = Some (w', s') ->
  (i < cur /\ exists count' errors', s' = BfRunning (i + 1) count' errors' /\
     count' + errors' = count + errors + 1 /\ count <= count' /\ errors <= errors') \/
  (i < cur /\ s' = BfAborted i) \/
  (cur <= i /\ s' = BfDone count errors).
Proof using db_fault verbose TxMap marshal unmarshal parse_amm parse_offer
  parse_offer_cancel fetch_ledger clock_ms.
  unfold bf_step. destruct (Z.ltb_spec i cur) as [Hlt|Hge].
  - destruct (fetch_with_retry i w) as [w1 [l|err]].
    + intros H. left. split; [exact Hlt|].
      destruct (processLedger w1 l (clock_ms l)) as [w2 [e|]]; cbv beta iota zeta in H;
        destruct (_ =? 0); injection H as _ <-;
        (eexists _, _; split; [reflexivity|]; lia).
    + intros H; injection H as <- <-. right; left; auto.
  - intros H; injection H as <- <-. right; right; auto.
Qed.

Lemma bf_run_counts (cur missing : Z) :
  forall n i w count errors,
    Z.to_nat (cur - i) = n -> i <= cur ->
    (forall j, i <= j < cur -> exists r ledger, (r < 3)%nat /\ fetch_ledger j r = Ok ledger) ->
    exists count' errors',
      snd (bf_run (S n) cur missing w (BfRunning i count errors)) = BfDone count' errors' /\
      count' + errors' = count + errors + (cur - i) /\ count <= count' /\ errors <= errors'.
Proof using db_fault verbose TxMap marshal unmarshal parse_amm parse_offer
  parse_offer_cancel fetch_ledger clock_ms.
  induction n as [|n IH]; intros i w count errors Hn Hle Hok.
  - assert (i = cur) by lia. subst i.
    rewrite bf_run_S. unfold bf_step. rewrite Z.ltb_irrefl. cbn [bf_run snd].
    exists count, errors. split; [reflexivity|]. lia.
  - assert (Hlt : i < cur) by lia.
    destruct (bf_step_fetched cur missing i count errors w Hlt (Hok i ltac:(lia)))
      as (w' & c' & e' & _ & Hs & _ & _).
    destruct (bf_step_counts cur missing i count errors w w' _ Hs)
      as [(_ & c1 & e1 & Heq & Hsum & Hc & He) | [(_ & Hab) | (Hge & _)]];
      [| discriminate | lia].
    injection Heq as <- <-.
    rewrite bf_run_S, Hs.
    destruct (IH (i + 1) w' c' e' ltac:(lia) ltac:(lia) ltac:(intros j Hj; apply Hok; lia))
      as (c2 & e2 & Hd & Hsum2 & Hc2 & He2).
    exists c2, e2. split; [exact Hd|]. lia.
Qed.

(** X12: when every ledger of [[i, currentLedger)] is fetched within three
    attempts, the backfill goroutine completes with [backfillCount +
    backfillErrors] equal to the number of ledgers it walked,
    [currentLedger - i]. *)
Theorem backfill_counts_every_ledger (cur missing i : Z) (w : World) :
  i <= cur ->
  (forall j, i <= j < cur -> exists r ledger, (r < 3)%nat /\ fetch_ledger j r = Ok ledger) ->
  exists count errors,
    snd (bf_run (S (Z.to_nat (cur - i))) cur missing w (BfRunning i 0 0)) =
      BfDone count errors /\
    count + errors = cur - i /\ 0 <= count /\ 0 <= errors.
Proof using db_fault verbose TxMap marshal unmarshal parse_amm parse_offer
  parse_offer_cancel fetch_ledger clock_ms.
  intros Hle Hok.
  destruct (bf_run_counts cur missing (Z.to_nat (cur - i)) i w 0 0 eq_refl Hle Hok)
    as (c & e & Hd & Hsum & Hc & He).
  exists c, e. split; [exact Hd|]. lia.
Qed.

(** X13: [backfillCount % 100 == 0] holds while no ledger has been
    processed successfully: whatever attempt of the retry loop fetched the
    ledger, when its processing fails while the count is 0 the error line is
    followed by a progress line reporting 0 processed ledgers. *)
Theorem backfill_progress_logged_at_zero (cur missing i errors : Z) (w w1 : World)
    (ledger : LedgerResponse) (err : string) :
  i < cur -> fetch_with_retry i w = (w1, Ok ledger) ->
  snd (processLedger w1 ledger (clock_ms ledger)) = Some err ->
  exists w',
    bf_step cur missing w (BfRunning i 0 errors) =
      Some (w', BfRunning (i + 1) 0 (errors + 1)) /\
    exists pre, w_trace w' =
      pre ++ [EvLog (LBackfillProcessError i); EvLog (LBackfillProgress 0 missing)].
Proof using db_fault verbose TxMap marshal unmarshal parse_amm parse_offer
  parse_offer_cancel fetch_ledger clock_ms.
  intros Hlt Hw Hp. unfold bf_step.
  destruct (Z.ltb_spec i cur); [|lia].
  rewrite Hw.
  destruct (processLedger w1 ledger (clock_ms ledger)) as [w2 r].
  cbn [snd] in Hp. subst r. cbv beta iota zeta.
  change (0 mod 100 =? 0) with true. cbv iota.
  eexists. split; [reflexivity|].
  exists (w_trace w2). unfold log, emit. cbn [w_trace]. rewrite <- app_assoc. reflexivity.
Qed.

End Indexer.

(** ** Witnesses and counterexamples *)

Lemma processLedger_duplicate_noop_witness :
  no_fault (OpGetCheckpoint (to_i64 (LedgerIndex (ledger_at 5)))) = None /\
  processLedger no_fault true unit marshal_ok unmarshal_ok parse_amm_none
    parse_offer_none parse_cancel_none (world_with_checkpoint 5) (ledger_at 5) 12 =
    (mkWorld (w_db (world_with_checkpoint 5))
       [EvDb (OpGetCheckpoint 5); EvLog (LSkipDuplicate 5)], None).
Proof.
  split; [reflexivity|].
  destruct (processLedger_duplicate_noop no_fault true unit marshal_ok unmarshal_ok
              parse_amm_none parse_offer_none parse_cancel_none
              (world_with_checkpoint 5) (ledger_at 5) 12 12 eq_refl) as [H _].
  rewrite (proj1 (H (checkpoint_at 5) ltac:(vm_compute; reflexivity))).
  reflexivity.
Defined.

Lemma duplicate_guard_fails_open_witness :
  get_fault 5 (OpGetCheckpoint (to_i64 (LedgerIndex (ledger_at 5)))) =
    Some "connection reset by peer"%string /\
  checkpoints (w_db (fst (processLedger (get_fault 5) true unit marshal_ok unmarshal_ok
                            parse_amm_none parse_offer_none parse_cancel_none
                            (world_with_checkpoint 5) (ledger_at 5) 12))) !! 5 =
    Some (ledger_checkpoint (ledger_at 5) 12).
Proof.
  split; [reflexivity|].
  destruct (duplicate_guard_fails_open (get_fault 5) true unit marshal_ok unmarshal_ok
              parse_amm_none parse_offer_none parse_cancel_none
              (world_with_checkpoint 5) (ledger_at 5) 12 "connection reset by peer"
              ltac:(vm_compute; reflexivity)) as (_ & Hs & _).
  exact (Hs ltac:(vm_compute; reflexivity)).
Defined.

Lemma continuity_check_never_blocks_witness :
  1 < LedgerIndex (ledger_at 5) /\
  snd (processLedger no_fault true unit marshal_ok unmarshal_ok parse_amm_none
         parse_offer_none parse_cancel_none empty_world (ledger_at 5) 0) = None.
Proof.
  split; [simpl; lia|].
  exact (proj1 (continuity_check_never_blocks no_fault true unit marshal_ok unmarshal_ok
                  parse_amm_none parse_offer_none parse_cancel_none
                  empty_world (ledger_at 5) 0 ltac:(simpl; lia)
                  ltac:(intros c; vm_compute; discriminate))).
Defined.

Lemma offer_cancel_parse_error_unlogged_witness :
  marshal_ok offer_cancel_tx = Ok "{}"%string /\ unmarshal_ok "{}" = Ok tt /\
  TransactionType offer_cancel_tx = "OfferCancel"%string /\
  parse_cancel_fail tt = Err "missing OfferSequence"%string /\
  exists pre,
    w_trace (process_tx no_fault false unit marshal_ok unmarshal_ok parse_amm_none
               parse_offer_none parse_cancel_fail (cancel_ledger_at 5) empty_world
               offer_cancel_tx) = pre ++ [EvParseCancel "tx-2"].
Proof.
  split; [reflexivity|]. split; [reflexivity|]. split; [reflexivity|].
  split; [reflexivity|].
  exact (proj1 (offer_cancel_parse_error_unlogged no_fault false unit marshal_ok
                  unmarshal_ok parse_amm_none parse_offer_none parse_cancel_fail
                  (cancel_ledger_at 5) empty_world offer_cancel_tx "{}" tt
                  "missing OfferSequence" eq_refl eq_refl eq_refl eq_refl) eq_refl).
Defined.

(** C6 failing input: ledger 5 holds one ["OfferCancel"] transaction whose
    [ParseOfferCancel] fails; with [-v] off and no store fault the ledger
    is processed and checkpointed, and no log line reports the failed
    parse: the parser call is followed directly by the checkpoint write. *)
Lemma offer_cancel_parse_error_silent_example :
  snd (processLedger no_fault false unit marshal_ok unmarshal_ok parse_amm_none
         parse_offer_none parse_cancel_fail empty_world (cancel_ledger_at 5) 0) = None /\
  w_trace (fst (processLedger no_fault false unit marshal_ok unmarshal_ok parse_amm_none
                  parse_offer_none parse_cancel_fail empty_world (cancel_ledger_at 5) 0)) =
    [EvDb (OpGetCheckpoint 5); EvDb (OpGetCheckpoint 4); EvLog (LProcessing 5);
     EvParseAMM "tx-2"; EvParseOffer "tx-2"; EvParseCancel "tx-2";
     EvDb (OpSaveCheckpoint (mkCheckpoint 5 "ledger-hash" 0 1 0));
     EvLog (LIndexed 5)].
Proof. split; vm_compute; reflexivity. Qed.

(** C8 failing input: ledger 5 is processed (verbose mode, no faults) with
    no checkpoint for ledger 4 in the store; the preceding checkpoint is
    looked up and found absent, and no log line reports the discontinuity:
    the trace goes on directly with "processing ledger 5". *)
Lemma continuity_gap_not_logged :
  checkpoints (w_db empty_world) !! 4 = None /\
  w_trace (fst (processLedger no_fault true unit marshal_ok unmarshal_ok parse_amm_none
                  parse_offer_none parse_cancel_none empty_world (ledger_at 5) 0)) =
    [EvDb (OpGetCheckpoint 5); EvDb (OpGetCheckpoint 4); EvLog (LProcessing 5);
     EvLog (LProcessingTx "tx-1"); EvParseAMM "tx-1"; EvLog LNotAMM;
     EvParseOffer "tx-1"; EvLog LNotOrderbook;
     EvDb (OpSaveCheckpoint (mkCheckpoint 5 "ledger-hash" 0 1 0));
     EvLog (LIndexed 5)].
Proof. split; vm_compute; reflexivity. Qed.

(** C2 counterexample: with the default start-ledger cutoff, checkpoint 1000
    and current 1006 (or 1101) launch no backfill at all: the whole missing
    range lies before the cutoff. *)
Lemma default_cutoff_blocks_example_backfill :
  main_startup (env_ok (Some (checkpoint_at 1000)) 1006 default_startLedger) =
    ([SNewStore; SGetLastCheckpoint; SConnect; SGetServerInfo; SSubscribe;
      SGapDecision BeforeCutoff], Running BeforeCutoff 1006) /\
  gap_decision (Some (checkpoint_at 1000)) 1101 default_startLedger = BeforeCutoff /\
  launches_backfill (gap_decision (Some (checkpoint_at 1000)) 1006 default_startLedger)
    = false.
Proof. vm_compute. repeat split. Qed.

Lemma backfill_retry_abort_witness :
  1001 < 1006 /\
  bf_step no_fault true unit marshal_ok unmarshal_ok parse_amm_none parse_offer_none
    parse_cancel_none fetch_down clock_zero 1006 5 empty_world (BfRunning 1001 0 0) =
    Some (mkWorld empty_store
            [EvFetch 1001 0; EvLog (LBackfillRetry 1 1001); EvSleep 1;
             EvFetch 1001 1; EvLog (LBackfillRetry 2 1001); EvSleep 2;
             EvFetch 1001 2; EvLog (LBackfillRetry 3 1001); EvSleep 3;
             EvLog (LBackfillStop 1001)],
          BfAborted 1001).
Proof.
  split; [lia|].
  destruct (backfill_retry_abort no_fault true unit marshal_ok unmarshal_ok parse_amm_none
              parse_offer_none parse_cancel_none fetch_down clock_zero
              1006 5 1001 0 0 empty_world ltac:(lia)) as [_ H].
  destruct (H (fun r _ => ex_intro _ "timeout"%string eq_refl)) as [Hs _].
  rewrite Hs. reflexivity.
Defined.

(** ** The startup window *)

(** C7 (code bug): [Subscribe] does run before the gap decision, and its
    failure is fatal ([subscribe_before_gap_decision]), but the end of the
    backfill range, [currentLedger], is read by [GetServerInfo] before
    [Subscribe].  With checkpoint 1000, [GetServerInfo] answering 1006 and
    ledger 1007 closing before the subscription is registered, the backfill
    walks [1001, 1006) and the live feed delivers only the ledgers after
    1007: ledger 1007, which closed during startup, is never indexed. *)
Theorem ledger_closing_before_subscribe_missed :
  main_startup env_race =
    ([SNewStore; SGetLastCheckpoint; SConnect; SGetServerInfo; SSubscribe;
      SGapDecision (LaunchBackfill 1001 1006 5)], Running (LaunchBackfill 1001 1006 5) 1006) /\
  ledger_reached env_race 1007 1007 = false /\
  (forall i, 1001 <= i < 1006 -> ledger_reached env_race 1007 i = true) /\
  (forall i, 1007 < i -> ledger_reached env_race 1007 i = true).
Proof.
  assert (Hm : main_startup env_race =
    ([SNewStore; SGetLastCheckpoint; SConnect; SGetServerInfo; SSubscribe;
      SGapDecision (LaunchBackfill 1001 1006 5)], Running (LaunchBackfill 1001 1006 5) 1006))
    by (vm_compute; reflexivity).
  unfold ledger_reached. rewrite Hm.
  split; [reflexivity|]. split; [reflexivity|].
  unfold live_feed_delivers, backfill_covers.
  split; intros i Hi.
  - apply orb_true_intro. right. apply andb_true_intro.
    split; [apply Z.leb_le | apply Z.ltb_lt]; lia.
  - apply orb_true_intro. left. apply Z.ltb_lt. lia.
Qed.

(** ** Startup *)

(** X3: startup reaches the live loop exactly when [-version] is not
    given, the connection string is non-empty and [NewStore],
    [GetLastCheckpoint], [Connect], [GetServerInfo] and [Subscribe] all
    succeed; a fatal startup never reaches the gap decision. *)
Theorem main_startup_runs_iff (env : StartupEnv) :
  ((exists steps d cur, main_startup env = (steps, Running d cur)) <->
   env_showVersion env = false /\ env_dbConnStr env <> ""%string /\
   env_newStore env = None /\ (exists cp, env_lastCheckpoint env = Ok cp) /\
   env_connect env = None /\ (exists cur, env_serverInfo env = Ok cur) /\
   env_subscribe env = None) /\
  (forall steps msg, main_startup env = (steps, Fatal msg) ->
   forall d, ~ In (SGapDecision d) steps).
Proof.
  split.
  - unfold main_startup.
    destruct (env_showVersion env) eqn:Hv.
    { split; [intros (? & ? & ? & H); discriminate | intros (H & _); discriminate]. }
    destruct (bool_decide (env_dbConnStr env = ""%string)) eqn:Hd.
    { apply bool_decide_eq_true in Hd.
      split; [intros (? & ? & ? & H); discriminate | intros (_ & H & _); contradiction]. }
    apply bool_decide_eq_false in Hd.
    destruct (env_newStore env) eqn:Hn.
    { split; [intros (? & ? & ? & H); discriminate | intros (_ & _ & H & _); discriminate]. }
    destruct (env_lastCheckpoint env) as [cp|e] eqn:Hl.
    2:{ split; [intros (? & ? & ? & H); discriminate
               | intros (_ & _ & _ & [? H] & _); discriminate]. }
    destruct (env_connect env) eqn:Hc.
    { split; [intros (? & ? & ? & H); discriminate
             | intros (_ & _ & _ & _ & H & _); discriminate]. }
    destruct (env_serverInfo env) as [cur|e] eqn:Hs.
    2:{ split; [intros (? & ? & ? & H); discriminate
               | intros (_ & _ & _ & _ & _ & [? H] & _); discriminate]. }
    destruct (env_subscribe env) eqn:Hsub.
    { split; [intros (? & ? & ? & H); discriminate
             | intros (_ & _ & _ & _ & _ & _ & H); discriminate]. }
    split; [intros _; repeat split; eauto | intros _; eauto].
  - intros steps msg H d Hin. unfold main_startup in H.
    repeat case_match; simplify_eq; simpl in Hin; intuition congruence.
Qed.

(** X4: a backfill is launched exactly when a checkpoint exists, the gap
    [currentLedger - checkpoint] (uint64) exceeds 1, the missing count
    [gap - 1] is at most 1000 and the start [backfillStart] lies below
    [currentLedger]. *)
Theorem launches_backfill_iff (checkpoint : option LedgerCheckpoint) (cur start : Z) :
  launches_backfill (gap_decision checkpoint cur start) = true <->
  exists cp, checkpoint = Some cp /\ 1 < gap_of (cp_LedgerIndex cp) cur /\
    gap_of (cp_LedgerIndex cp) cur - 1 <= smallGapThreshold /\
    backfill_start (cp_LedgerIndex cp) start < cur.
Proof.
  split.
  - destruct (gap_decision checkpoint cur start) as [| | | |bs c m] eqn:Hd;
      try discriminate.
    intros _. destruct checkpoint as [cp|]; [|discriminate].
    destruct (gap_decision_launch cp cur start bs c m Hd)
      as (H1 & Hm & Hthr & Hbs & Hlt & _).
    exists cp. subst. repeat split; auto.
  - intros (cp & -> & H1 & H2 & H3).
    pose proof (gap_of_range (cp_LedgerIndex cp) cur) as Hr.
    unfold gap_decision.
    destruct (Z.ltb_spec 1 (gap_of (cp_LedgerIndex cp) cur)); [|lia].
    rewrite (to_u64_small (gap_of _ _ - 1)) by lia.
    destruct (Z.ltb_spec smallGapThreshold (gap_of (cp_LedgerIndex cp) cur - 1)); [lia|].
    destruct (Z.leb_spec cur (backfill_start (cp_LedgerIndex cp) start)); [lia|].
    reflexivity.
Qed.

(** X5: when the node's validated ledger is behind the checkpoint (a node
    resynced or replaced), [gap] wraps around in uint64: equal indices give
    "no gap", and a node behind by any amount gives a "large gap" of
    [2^64 + currentLedger - checkpoint - 1] ledgers, so no backfill is
    launched and no error is reported. *)
Theorem checkpoint_ahead_of_node (cp : LedgerCheckpoint) (cur start : Z) :
  0 <= cur <= cp_LedgerIndex cp -> cp_LedgerIndex cp < 2 ^ 63 ->
  (cur = cp_LedgerIndex cp -> gap_decision (Some cp) cur start = NoGap) /\
  (cur < cp_LedgerIndex cp ->
   gap_decision (Some cp) cur start =
     LargeGapSkipped (2 ^ 64 + cur - cp_LedgerIndex cp - 1)).
Proof.
  intros Hc Hcp.
  assert (Hu : to_u64 (cp_LedgerIndex cp) = cp_LedgerIndex cp)
    by (apply to_u64_small; lia).
  split.
  - intros Heq. unfold gap_decision, gap_of. rewrite Hu, Heq, Z.sub_diag.
    reflexivity.
  - intros Hlt.
    assert (Hg : gap_of (cp_LedgerIndex cp) cur = cur - cp_LedgerIndex cp + 2 ^ 64).
    { unfold gap_of. rewrite Hu. unfold to_u64.
      rewrite <- (Z.mod_add (cur - cp_LedgerIndex cp) 1 (2 ^ 64)) by lia.
      rewrite Z.mul_1_l. apply Z.mod_small. lia. }
    unfold gap_decision. rewrite Hg.
    destruct (Z.ltb_spec 1 (cur - cp_LedgerIndex cp + 2 ^ 64)); [|lia].
    rewrite (to_u64_small (cur - cp_LedgerIndex cp + 2 ^ 64 - 1)) by lia.
    destruct (Z.ltb_spec smallGapThreshold (cur - cp_LedgerIndex cp + 2 ^ 64 - 1));
      [|unfold smallGapThreshold in *; lia].
    f_equal. lia.
Qed.

(** X14: a launched backfill walks at most [missingCount] ledgers, and
    exactly [missingCount] when the start-ledger cutoff is at most
    [checkpoint + 1]. *)
Theorem backfill_walks_missing_count (cp : LedgerCheckpoint) (cur start bs c m : Z) :
  0 <= cp_LedgerIndex cp < 2 ^ 63 -> 0 <= cur < 2 ^ 64 ->
  gap_decision (Some cp) cur start = LaunchBackfill bs c m ->
  Z.of_nat (length (zrange bs cur)) <= m /\
  (start <= cp_LedgerIndex cp + 1 -> Z.of_nat (length (zrange bs cur)) = m).
Proof.
  intros Hcp Hcur Hd.
  destruct (gap_decision_launch cp cur start bs c m Hd)
    as (_ & Hm & _ & Hbs & Hlt & _).
  rewrite backfill_start_max in Hbs by lia.
  assert (Hg : gap_of (cp_LedgerIndex cp) cur = cur - cp_LedgerIndex cp).
  { unfold gap_of. rewrite (to_u64_small (cp_LedgerIndex cp)) by lia.
    apply to_u64_small. lia. }
  unfold zrange. rewrite length_map, length_seq, Z2Nat.id by lia.
  split; [|intros Hs]; lia.
Qed.

(** ** Witnesses of the further properties *)

Lemma process_tx_cancel_only_offercancel_witness :
  TransactionType sample_tx <> "OfferCancel"%string /\
  exists ext, w_trace (process_tx no_fault true unit marshal_ok unmarshal_ok
                         parse_amm_none parse_offer_none parse_cancel_none
                         (ledger_at 5) empty_world sample_tx) = ext /\
              Forall (fun e => is_cancel e = false) ext.
Proof.
  assert (Hty : TransactionType sample_tx <> "OfferCancel"%string) by discriminate.
  split; [exact Hty|].
  destruct (process_tx_cancel_only_offercancel no_fault true unit marshal_ok unmarshal_ok
              parse_amm_none parse_offer_none parse_cancel_none
              (ledger_at 5) empty_world sample_tx Hty) as (ext & Ht & Hf).
  exists ext. split; [exact Ht | exact Hf].
Defined.

Lemma process_tx_decode_failure_witness :
  (exists e, marshal_fail sample_tx = Err e) /\
  w_db (process_tx no_fault true unit marshal_fail unmarshal_ok parse_amm_none
          parse_offer_none parse_cancel_none (ledger_at 5) empty_world sample_tx) =
    empty_store.
Proof.
  assert (Hm : exists e, marshal_fail sample_tx = Err e) by (eexists; reflexivity).
  split; [exact Hm|].
  exact (proj1 (process_tx_decode_failure no_fault true unit marshal_fail unmarshal_ok
                  parse_amm_none parse_offer_none parse_cancel_none
                  (ledger_at 5) empty_world sample_tx (or_introl Hm))).
Defined.

Lemma processLedger_save_failure_keeps_checkpoints_witness :
  save_fault (OpSaveCheckpoint (ledger_checkpoint (ledger_at 5) 0)) =
    Some "disk full"%string /\
  checkpoints (w_db (fst (processLedger save_fault true unit marshal_ok unmarshal_ok
                            parse_amm_none parse_offer_none parse_cancel_none
                            empty_world (ledger_at 5) 0))) = ∅.
Proof.
  split; [reflexivity|].
  exact (proj1 (processLedger_save_failure_keeps_checkpoints save_fault true unit
                  marshal_ok unmarshal_ok parse_amm_none parse_offer_none
                  parse_cancel_none empty_world (ledger_at 5) 0 0 "disk full" eq_refl)).
Defined.

Lemma backfill_counts_every_ledger_witness :
  1001 <= 1003 /\
  exists count errors,
    snd (bf_run no_fault true unit marshal_ok unmarshal_ok parse_amm_none
           parse_offer_none parse_cancel_none fetch_ok clock_zero
           3 1003 2 empty_world (BfRunning 1001 0 0)) = BfDone count errors /\
    count + errors = 2.
Proof.
  assert (Hok : forall j, 1001 <= j < 1003 ->
                 exists r ledger, (r < 3)%nat /\ fetch_ok j r = Ok ledger)
    by (intros j _; exists 0%nat, (ledger_at j); split; [lia | reflexivity]).
  split; [lia|].
  destruct (backfill_counts_every_ledger no_fault true unit marshal_ok unmarshal_ok
              parse_amm_none parse_offer_none parse_cancel_none fetch_ok clock_zero
              1003 2 1001 empty_world ltac:(lia) Hok)
    as (c & e & Hd & Hs & _).
  exists c, e. split; [exact Hd | lia].
Defined.

Lemma backfill_progress_logged_at_zero_witness :
  1001 < 1006 /\
  fetch_with_retry fetch_ok 1001 empty_world =
    (emit (EvFetch 1001 0) empty_world, Ok (ledger_at 1001)) /\
  snd (processLedger save_fault true unit marshal_ok unmarshal_ok parse_amm_none
         parse_offer_none parse_cancel_none (emit (EvFetch 1001 0) empty_world)
         (ledger_at 1001) (clock_zero (ledger_at 1001))) = Some "disk full"%string /\
  exists w', bf_step save_fault true unit marshal_ok unmarshal_ok parse_amm_none
               parse_offer_none parse_cancel_none fetch_ok clock_zero 1006 5
               empty_world (BfRunning 1001 0 0) = Some (w', BfRunning 1002 0 1).
Proof.
  assert (Hf : fetch_with_retry fetch_ok 1001 empty_world =
                 (emit (EvFetch 1001 0) empty_world, Ok (ledger_at 1001)))
    by reflexivity.
  assert (Hp : snd (processLedger save_fault true unit marshal_ok unmarshal_ok
                      parse_amm_none parse_offer_none parse_cancel_none
                      (emit (EvFetch 1001 0) empty_world) (ledger_at 1001)
                      (clock_zero (ledger_at 1001))) = Some "disk full"%string)
    by (vm_compute; reflexivity).
  split; [lia|]. split; [exact Hf|]. split; [exact Hp|].
  destruct (backfill_progress_logged_at_zero save_fault true unit marshal_ok unmarshal_ok
              parse_amm_none parse_offer_none parse_cancel_none fetch_ok clock_zero
              1006 5 1001 0 empty_world (emit (EvFetch 1001 0) empty_world)
              (ledger_at 1001) "disk full" ltac:(lia) Hf Hp)
    as (w' & Hs & _).
  exists w'. exact Hs.
Defined.

Lemma checkpoint_ahead_of_node_witness :
  0 <= 900 <= cp_LedgerIndex (checkpoint_at 1000) /\
  cp_LedgerIndex (checkpoint_at 1000) < 2 ^ 63 /\
  gap_decision (Some (checkpoint_at 1000)) 900 default_startLedger =
    LargeGapSkipped 18446744073709551515.
Proof.
  assert (H1 : 0 <= 900 <= cp_LedgerIndex (checkpoint_at 1000)) by (simpl; lia).
  assert (H2 : cp_LedgerIndex (checkpoint_at 1000) < 2 ^ 63) by (simpl; lia).
  split; [exact H1|]. split; [exact H2|].
  rewrite (proj2 (checkpoint_ahead_of_node (checkpoint_at 1000) 900 default_startLedger
                    H1 H2) ltac:(simpl; lia)).
  reflexivity.
Defined.

Lemma backfill_walks_missing_count_witness :
  gap_decision (Some (checkpoint_at 1000)) 1006 0 = LaunchBackfill 1001 1006 5 /\
  Z.of_nat (length (zrange 1001 1006)) = 5.
Proof.
  assert (Hd : gap_decision (Some (checkpoint_at 1000)) 1006 0 = LaunchBackfill 1001 1006 5)
    by (vm_compute; reflexivity).
  split; [exact Hd|].
  exact (proj2 (backfill_walks_missing_count (checkpoint_at 1000) 1006 0 1001 1006 5
                  ltac:(simpl; lia) ltac:(lia) Hd) ltac:(simpl; lia)).
Defined.
